(** * SQS dead-letter-queue redrive web application: verification development

    A shallow embedding of the core of the application

    - [SessionStore]  : src/aws/sessionStore.ts  (expiring in-memory session map)
    - [JsonFilter]    : src/filtering/jsonFilter.ts (attribute-path filter)
    - [SsoLogin]      : src/aws/ssoLogin.ts (device-authorization flow)
    - [SqsService]    : src/aws/sqsService.ts (deduplicated receive, batched redrive)

    Conventions.  JavaScript numbers that hold counts, indices and epoch
    milliseconds are integers here ([nat] for array indices and lengths, [Z]
    for counters and times); fractions, [NaN] and the infinities are not
    represented.  A [Date] is its [getTime()] value.  An optional
    field [f?: T] is an [option T].  Module-level mutable variables become
    explicit state that is passed in and returned.  Calls that leave the
    process (the AWS SDK clients, [JSON.parse], [String]) are operations of an
    interface the development is parameterised over. *)

From Stdlib Require Import ZArith Lia Ascii String.
From stdpp Require Import base tactics option list strings gmap pretty.

Local Open Scope Z_scope.

(** * Part I: the embedding *)

(** ** JavaScript results: a call either returns or throws *)

(** The fields of a thrown value that the sources inspect:
    [err.name], [err.message] and [err.error]. *)
Record JsError := mkJsError {
  err_name : option string;
  err_message : string;
  err_error : option string;
}.

(** [new Error(msg)] *)
Definition new_Error (msg : string) : JsError :=
  {| err_name := Some "Error"; err_message := msg; err_error := None |}.

Inductive Outcome (A : Type) : Type :=
| Return (a : A)
| Throw (e : JsError).
Arguments Return {A} a.
Arguments Throw {A} e.

(** Truthiness of a string ([!s] is true exactly for the empty string). *)
Definition truthy_string (s : string) : bool :=
  match s with EmptyString => false | String _ _ => true end.

(** Truthiness of an optional string ([undefined] and the empty string are
    falsy). *)
Definition truthy_opt_string (o : option string) : bool :=
  match o with None => false | Some s => truthy_string s end.

(** ** src/aws/sessionStore.ts *)

Module SessionStore.

Record ConnectedSsoSession := mkSession {
  ssoSession : string;
  ssoRegion : string;
  accessToken : string;
  expiresAt : option Z;      (* expiresAt?: Date, as epoch milliseconds *)
}.

(** [const store = new Map<string, ConnectedSsoSession>()] *)
Abbreviation Store := (gmap string ConnectedSsoSession).

Definition setSsoSession (sessionId : string) (session : ConnectedSsoSession)
    (store : Store) : Store :=
  <[sessionId := session]> store.

(** [now] is the value of [Date.now()] at the call.  The result is the
    returned value ([None] for [undefined]) and the store after the call. *)
Definition getSsoSession (now : Z) (sessionId : string) (store : Store)
    : option ConnectedSsoSession * Store :=
  match store !! sessionId with
  | None => (None, store)
  | Some value =>
      match expiresAt value with
      | Some t =>
          if t <=? now then (None, delete sessionId store)
          else (Some value, store)
      | None => (Some value, store)
      end
  end.

(** A session is expired at [now] when its expiry time has been reached. *)
Definition expired (now : Z) (s : ConnectedSsoSession) : Prop :=
  exists t, expiresAt s = Some t /\ t <= now.

(** Operations a caller can perform on the store after some point. *)
Inductive StoreOp :=
| OpGet (now : Z) (sessionId : string)
| OpSet (sessionId : string) (session : ConnectedSsoSession).

Definition run_op (op : StoreOp) (store : Store) : Store :=
  match op with
  | OpGet now sid => snd (getSsoSession now sid store)
  | OpSet sid s => setSsoSession sid s store
  end.

Definition run_ops (ops : list StoreOp) (store : Store) : Store :=
  fold_left (fun st op => run_op op st) ops store.

(** No [setSsoSession] for [sessionId] occurs among [ops]. *)
Definition no_put (sessionId : string) (ops : list StoreOp) : Prop :=
  Forall (fun op => match op with
                    | OpGet _ _ => True
                    | OpSet sid _ => sid <> sessionId
                    end) ops.

End SessionStore.

(** ** src/filtering/jsonFilter.ts *)

(** [RawMessage]: the queue message as the transport delivers it.  The index
    signature [[key: string]: unknown] is kept as an opaque list of the
    remaining fields. *)
Record RawMessage := mkRawMessage {
  MessageId : option string;
  ReceiptHandle : option string;
  Body : option string;
  otherFields : list (string * string);
}.

(** The part of the JavaScript runtime that the filter calls.  [V] is the type
    of JavaScript values ([unknown]/[any] in the source). *)
Class JsRuntime (V : Type) := {
  undefined : V;
  is_undefined : V -> bool;            (* v === undefined *)
  is_nullish : V -> bool;              (* v == null *)
  typeof_object : V -> bool;           (* typeof v === "object" *)
  get_member : V -> string -> V;       (* v[key] *)
  String_ : V -> Outcome string;       (* String(v); a TypeError is possible *)
  JSON_parse : string -> Outcome V;    (* JSON.parse(text); throws SyntaxError *)
  (* the SyntaxError of [JSON.parse] carries a non-empty message *)
  JSON_parse_message :
    forall s e, JSON_parse s = Throw e -> err_message e <> EmptyString;
}.

Module JsonFilter.

(** [s.split(".")] for a one-character separator: never the empty list. *)
Fixpoint split (sep : ascii) (s : string) : list string :=
  match s with
  | EmptyString => [EmptyString]
  | String c rest =>
      if Ascii.eqb c sep then EmptyString :: split sep rest
      else match split sep rest with
           | [] => [String c EmptyString]
           | h :: t => String c h :: t
           end
  end.

Section Filter.
Context {V : Type} `{JsRuntime V}.

Record FilteredMessage := mkFiltered {
  raw : RawMessage;
  parsedBody : V;                (* parsedBody?: unknown; absent reads as undefined *)
  attributeValue : V;            (* attributeValue?: unknown *)
  parseError : option string;    (* parseError?: string *)
}.

(** The [for (const part of parts)] loop of [getByPath]. *)
Fixpoint getByPath_loop (current : V) (parts : list string) : V :=
  match parts with
  | [] => current
  | part :: rest =>
      if is_nullish current || negb (typeof_object current) then undefined
      else getByPath_loop (get_member current part) rest
  end.

Definition getByPath (obj : V) (path : string) : V :=
  if negb (truthy_string path) then undefined
  else getByPath_loop obj (split "."%char path).

(** One iteration of the [for (const msg of messages)] loop: the value of
    [results] after the iteration, or the exception that leaves the loop. *)
Definition filter_step (attributePath expectedValue : string) (exclude : bool)
    (results : list FilteredMessage) (msg : RawMessage)
    : Outcome (list FilteredMessage) :=
  match Body msg with
  | None => Return results                                   (* !msg.Body *)
  | Some body =>
      if negb (truthy_string body) then Return results       (* !msg.Body *)
      else
        let '(parsed, parseError) :=
          match JSON_parse body with
          | Return v => (v, None)
          | Throw e => (undefined, Some (err_message e))
          end in
        if truthy_opt_string parseError then
          Return (results ++ [mkFiltered msg undefined undefined parseError])
        else
          let value := getByPath parsed attributePath in
          if is_undefined value then
            if exclude then
              Return (results ++ [mkFiltered msg parsed undefined None])
            else Return results
          else
            match String_ value with
            | Throw e => Throw e
            | Return str =>
                let matches := String.eqb str expectedValue in
                if (if exclude then negb matches else matches) then
                  Return (results ++ [mkFiltered msg parsed value None])
                else Return results
            end
  end.

Fixpoint filter_loop (attributePath expectedValue : string) (exclude : bool)
    (messages : list RawMessage) (results : list FilteredMessage)
    : Outcome (list FilteredMessage) :=
  match messages with
  | [] => Return results
  | msg :: rest =>
      match filter_step attributePath expectedValue exclude results msg with
      | Throw e => Throw e
      | Return results' =>
          filter_loop attributePath expectedValue exclude rest results'
      end
  end.

Definition filterByAttributePath (messages : list RawMessage)
    (attributePath expectedValue : string) (exclude : bool)
    : Outcome (list FilteredMessage) :=
  filter_loop attributePath expectedValue exclude messages [].

(** The entries one iteration appends for [msg]. *)
Definition filter_one (attributePath expectedValue : string) (exclude : bool)
    (msg : RawMessage) : Outcome (list FilteredMessage) :=
  filter_step attributePath expectedValue exclude [] msg.

(** *** Vocabulary of the filter's specification *)

(** The message has no usable body: [Body] absent or the empty string. *)
Definition no_body (msg : RawMessage) : Prop :=
  Body msg = None \/ Body msg = Some EmptyString.

(** The body is present and [JSON.parse] throws on it. *)
Definition parse_fails (msg : RawMessage) (e : JsError) : Prop :=
  exists body, Body msg = Some body /\ body <> EmptyString
               /\ JSON_parse body = Throw e.


(** The raw messages of a result list. *)
Definition raws (out : list FilteredMessage) : list RawMessage := raw <$> out.

End Filter.
End JsonFilter.

(** ** A small JavaScript runtime for running the filter

    [MiniJs] implements [JsRuntime] for the JSON fragment made of [null],
    booleans, integers, strings without escape sequences, arrays and objects.
    Text outside the fragment (fractions, exponents, escapes) is rejected
    with a SyntaxError.  Member access sees own properties only. *)

Module MiniJs.

#[warnings="-register-all"] Inductive JValue :=
| JUndefined
| JNull
| JBool (b : bool)
| JNum (n : Z)
| JStr (s : string)
| JArr (items : list JValue)
| JObj (fields : list (string * JValue)).

Definition dquote : ascii := "034"%char.

(** [quoted s] is [s] between double quotes. *)
Definition quoted (s : string) : string :=
  String dquote (s +:+ String dquote EmptyString).

Definition is_ws (c : ascii) : bool :=
  Ascii.eqb c " "%char || Ascii.eqb c "009"%char
  || Ascii.eqb c "010"%char || Ascii.eqb c "013"%char.

Fixpoint skip_ws (s : string) : string :=
  match s with
  | String c r => if is_ws c then skip_ws r else s
  | EmptyString => EmptyString
  end.

Fixpoint strip_prefix (p s : string) : option string :=
  match p, s with
  | EmptyString, _ => Some s
  | String a p', String b s' => if Ascii.eqb a b then strip_prefix p' s' else None
  | String _ _, EmptyString => None
  end.

Definition digit_of (c : ascii) : option Z :=
  let n := Z.of_nat (nat_of_ascii c) in
  if (48 <=? n) && (n <=? 57) then Some (n - 48) else None.

(** Digits at the front of [s], most significant first, added to [acc]. *)
Fixpoint parse_digits (s : string) (acc : Z) : Z * string :=
  match s with
  | String c r =>
      match digit_of c with
      | Some d => parse_digits r (10 * acc + d)
      | None => (acc, s)
      end
  | EmptyString => (acc, s)
  end.

(** An integer literal: no leading zeros, no fraction, no exponent. *)
Definition parse_int (s : string) : option (Z * string) :=
  match s with
  | String c r =>
      match digit_of c with
      | Some 0 => Some (0, r)
      | Some d => Some (parse_digits r d)
      | None => None
      end
  | EmptyString => None
  end.

(** The characters up to the closing quote; escapes and control characters
    are outside the fragment. *)
Fixpoint parse_string_body (s : string) : option (string * string) :=
  match s with
  | EmptyString => None
  | String c r =>
      if Ascii.eqb c dquote then Some (EmptyString, r)
      else if Ascii.eqb c "\"%char || (nat_of_ascii c <? 32)%nat then None
      else match parse_string_body r with
           | Some (str, r') => Some (String c str, r')
           | None => None
           end
  end.

Fixpoint parse_value (fuel : nat) (s : string) : option (JValue * string) :=
  match fuel with
  | O => None
  | S fuel' =>
      let parse_items :=
        fix items (n : nat) (s : string) (acc : list JValue)
            : option (list JValue * string) :=
          match n with
          | O => None
          | S n' =>
              match parse_value fuel' s with
              | Some (v, r) =>
                  match skip_ws r with
                  | String c r' =>
                      if Ascii.eqb c ","%char then items n' r' (acc ++ [v])
                      else if Ascii.eqb c "]"%char then Some (acc ++ [v], r')
                      else None
                  | EmptyString => None
                  end
              | None => None
              end
          end in
      let parse_fields :=
        fix fields (n : nat) (s : string) (acc : list (string * JValue))
            : option (list (string * JValue) * string) :=
          match n with
          | O => None
          | S n' =>
              match skip_ws s with
              | String q r =>
                  if negb (Ascii.eqb q dquote) then None
                  else match parse_string_body r with
                       | Some (key, r1) =>
                           match skip_ws r1 with
                           | String colon r2 =>
                               if negb (Ascii.eqb colon ":"%char) then None
                               else match parse_value fuel' r2 with
                                    | Some (v, r3) =>
                                        match skip_ws r3 with
                                        | String c r4 =>
                                            if Ascii.eqb c ","%char
                                            then fields n' r4 (acc ++ [(key, v)])
                                            else if Ascii.eqb c "}"%char
                                            then Some (acc ++ [(key, v)], r4)
                                            else None
                                        | EmptyString => None
                                        end
                                    | None => None
                                    end
                           | EmptyString => None
                           end
                       | None => None
                       end
              | EmptyString => None
              end
          end in
      match skip_ws s with
      | EmptyString => None
      | String c r =>
          if Ascii.eqb c dquote then
            match parse_string_body r with
            | Some (str, r') => Some (JStr str, r')
            | None => None
            end
          else if Ascii.eqb c "["%char then
            match skip_ws r with
            | String c' r' =>
                if Ascii.eqb c' "]"%char then Some (JArr [], r')
                else match parse_items (String.length r) r [] with
                     | Some (l, r'') => Some (JArr l, r'')
                     | None => None
                     end
            | EmptyString => None
            end
          else if Ascii.eqb c "{"%char then
            match skip_ws r with
            | String c' r' =>
                if Ascii.eqb c' "}"%char then Some (JObj [], r')
                else match parse_fields (String.length r) r [] with
                     | Some (l, r'') => Some (JObj l, r'')
                     | None => None
                     end
            | EmptyString => None
            end
          else if Ascii.eqb c "-"%char then
            match parse_int r with
            | Some (n, r') => Some (JNum (- n), r')
            | None => None
            end
          else
            match strip_prefix "null" (String c r) with
            | Some r' => Some (JNull, r')
            | None =>
            match strip_prefix "true" (String c r) with
            | Some r' => Some (JBool true, r')
            | None =>
            match strip_prefix "false" (String c r) with
            | Some r' => Some (JBool false, r')
            | None =>
            match parse_int (String c r) with
            | Some (n, r') => Some (JNum n, r')
            | None => None
            end end end end
      end
  end.

Definition syntax_error : JsError :=
  {| err_name := Some "SyntaxError";
     err_message := "Unexpected token in JSON";
     err_error := None |}.

Definition type_error : JsError :=
  {| err_name := Some "TypeError";
     err_message := "Cannot convert object to primitive value";
     err_error := None |}.

Definition parse (text : string) : Outcome JValue :=
  match parse_value (S (String.length text)) text with
  | Some (v, r) =>
      match skip_ws r with
      | EmptyString => Return v
      | String _ _ => Throw syntax_error
      end
  | None => Throw syntax_error
  end.

(** The last binding of [key], as [JSON.parse] keeps the last duplicate. *)
Fixpoint own_property (key : string) (fields : list (string * JValue))
    : option JValue :=
  match fields with
  | [] => None
  | (k, v) :: rest =>
      match own_property key rest with
      | Some v' => Some v'
      | None => if String.eqb k key then Some v else None
      end
  end.

Fixpoint array_index (key : string) (i : nat) (items : list JValue) : JValue :=
  match items with
  | [] => JUndefined
  | x :: rest => if String.eqb (pretty i) key then x else array_index key (S i) rest
  end.

Definition member (v : JValue) (key : string) : JValue :=
  match v with
  | JObj fields => default JUndefined (own_property key fields)
  | JArr items =>
      if String.eqb key "length" then JNum (Z.of_nat (length items))
      else array_index key 0%nat items
  | _ => JUndefined
  end.

(** [String(v)].  An object with an own [toString] member (not callable, as
    it comes from JSON) cannot be converted; arrays join their elements. *)
Fixpoint to_string (v : JValue) : Outcome string :=
  match v with
  | JUndefined => Return "undefined"
  | JNull => Return "null"
  | JBool true => Return "true"
  | JBool false => Return "false"
  | JNum n => Return (pretty n)
  | JStr s => Return s
  | JObj fields =>
      match own_property "toString" fields with
      | Some _ => Throw type_error
      | None => Return "[object Object]"
      end
  | JArr items =>
      (fix join (l : list JValue) : Outcome string :=
         match l with
         | [] => Return EmptyString
         | x :: rest =>
             match (match x with
                    | JUndefined | JNull => Return EmptyString
                    | _ => to_string x
                    end) with
             | Throw e => Throw e
             | Return sx =>
                 match rest with
                 | [] => Return sx
                 | _ :: _ =>
                     match join rest with
                     | Throw e => Throw e
                     | Return sr => Return (sx +:+ "," +:+ sr)
                     end
                 end
             end
         end) items
  end.

Definition is_undef (v : JValue) : bool :=
  match v with JUndefined => true | _ => false end.

Definition is_null_or_undef (v : JValue) : bool :=
  match v with JUndefined | JNull => true | _ => false end.

Definition is_object (v : JValue) : bool :=
  match v with JNull | JArr _ | JObj _ => true | _ => false end.

#[global] Instance runtime : JsRuntime JValue.
Proof.
  refine {| undefined := JUndefined;
            is_undefined := is_undef;
            is_nullish := is_null_or_undef;
            typeof_object := is_object;
            get_member := member;
            String_ := to_string;
            JSON_parse := parse |}.
  intros text e. unfold parse.
  destruct (parse_value _ _) as [[v r]|]; [destruct (skip_ws r)|];
    intros [= <-]; discriminate.
Defined.

(** A message with the given id and body. *)
Definition message (id body : string) : RawMessage :=
  mkRawMessage (Some id) (Some "rh-1") (Some body) [].

End MiniJs.

(** ** The AWS services behind the SDK clients

    Every [client.send(new XCommand(input))] is a call of the operation of
    [AwsProvider] for command [X].  The provider has a state of its own (the
    queues, the authorization servers), may answer anything of the response
    type, and may make the call throw. *)

Module Aws.

(** [new SQSClient({ region, credentials })] *)
Record SQSClient := mkSQSClient {
  sqs_region : string;
  sqs_accessKeyId : string;
  sqs_secretAccessKey : string;
  sqs_sessionToken : option string;
}.

Record RegisterClientResponse := mkRegisterClientResponse {
  rcr_clientId : option string;
  rcr_clientSecret : option string;
}.

Record StartDeviceAuthorizationResponse := mkStartDeviceAuthorizationResponse {
  sda_deviceCode : option string;
  sda_verificationUriComplete : option string;
  sda_userCode : option string;
  sda_interval : option Z;
  sda_expiresIn : option Z;
}.

Record CreateTokenResponse := mkCreateTokenResponse {
  ctr_accessToken : option string;
  ctr_expiresIn : option Z;
}.

Record RoleCredentials := mkRoleCredentials {
  rc_accessKeyId : option string;
  rc_secretAccessKey : option string;
  rc_sessionToken : option string;
}.

Record ReceiveMessageRequest := mkReceiveMessageRequest {
  rm_QueueUrl : string;
  rm_MaxNumberOfMessages : Z;
  rm_WaitTimeSeconds : Z;
  rm_VisibilityTimeout : option Z;
  rm_AttributeNames : list string;
  rm_MessageAttributeNames : list string;
}.

Record SendMessageBatchRequestEntry := mkSendEntry {
  se_Id : string;
  se_MessageBody : string;
  se_MessageAttributes : option string;
}.

Record DeleteMessageBatchRequestEntry := mkDeleteEntry {
  de_Id : string;
  de_ReceiptHandle : string;
}.

(** An entry of the [Failed] list of a batch response. *)
Record BatchResultErrorEntry := mkBatchResultErrorEntry {
  bre_Id : option string;
  bre_Code : option string;
}.

(** The requests the application sends, with the configuration of the client
    that sends them. *)
Inductive Call :=
| RegisterClientCommand (region clientName clientType : string)
| StartDeviceAuthorizationCommand (region clientId clientSecret startUrl : string)
| CreateTokenCommand (region clientId clientSecret deviceCode grantType : string)
| GetRoleCredentialsCommand (region accessToken accountId roleName : string)
| ReceiveMessageCommand (client : SQSClient) (input : ReceiveMessageRequest)
| SendMessageBatchCommand (client : SQSClient) (QueueUrl : string)
    (Entries : list SendMessageBatchRequestEntry)
| DeleteMessageBatchCommand (client : SQSClient) (QueueUrl : string)
    (Entries : list DeleteMessageBatchRequestEntry).

Class AwsProvider (P : Type) := {
  registerClient : string -> string -> string -> P
                   -> Outcome RegisterClientResponse * P;
  startDeviceAuthorization : string -> string -> string -> string -> P
                   -> Outcome StartDeviceAuthorizationResponse * P;
  createToken : string -> string -> string -> string -> string -> P
                   -> Outcome CreateTokenResponse * P;
  (* the response's [roleCredentials] field *)
  getRoleCredentials : string -> string -> string -> string -> P
                   -> Outcome (option RoleCredentials) * P;
  (* the response's [Messages] field *)
  receiveMessage : SQSClient -> ReceiveMessageRequest -> P
                   -> Outcome (option (list RawMessage)) * P;
  (* the response's [Failed] field *)
  sendMessageBatch : SQSClient -> string -> list SendMessageBatchRequestEntry -> P
                   -> Outcome (option (list BatchResultErrorEntry)) * P;
  deleteMessageBatch : SQSClient -> string -> list DeleteMessageBatchRequestEntry -> P
                   -> Outcome (option (list BatchResultErrorEntry)) * P;
}.

End Aws.

(** ** The state of the process and the effects of its functions *)

(** [EnvironmentConfig] (src/aws/envConfig.ts) *)
Record EnvironmentConfig := mkEnvironmentConfig {
  env_id : string;
  env_label : string;
  env_regions : list string;
  env_ssoAccountId : option string;
  env_ssoRoleName : option string;
}.

(** [RegisteredClient] (src/aws/ssoLogin.ts) *)
Record RegisteredClient := mkRegisteredClient {
  clientId : string;
  clientSecret : string;
}.

(** The module-level variables of the process, the provider it talks to, and
    the requests it has sent so far, oldest first.  [calls] is a record of
    what happened; no function reads it. *)
Record AppState (P : Type) := mkAppState {
  store : SessionStore.Store;                          (* sessionStore.ts *)
  dynamicEnvs : gmap string (list EnvironmentConfig);  (* envConfig.ts *)
  registeredClient : option RegisteredClient;          (* ssoLogin.ts *)
  aws : P;
  calls : list Aws.Call;
}.
Arguments mkAppState {P}.
Arguments store {P}.
Arguments dynamicEnvs {P}.
Arguments registeredClient {P}.
Arguments aws {P}.
Arguments calls {P}.

(** A computation that may read and change the state and may throw.  A
    thrown exception keeps the state changes made before it. *)
Definition M (P A : Type) : Type := AppState P -> Outcome A * AppState P.

Definition ret {P A} (a : A) : M P A := fun st => (Return a, st).

Definition throw {P A} (e : JsError) : M P A := fun st => (Throw e, st).

Definition bind {P A B} (m : M P A) (k : A -> M P B) : M P B :=
  fun st =>
    match m st with
    | (Return a, st') => k a st'
    | (Throw e, st') => (Throw e, st')
    end.

(** [try { m } catch (err) { handler(err) }] *)
Definition try_catch {P A} (m : M P A) (handler : JsError -> M P A) : M P A :=
  fun st =>
    match m st with
    | (Return a, st') => (Return a, st')
    | (Throw e, st') => handler e st'
    end.

Declare Scope js_scope.
Delimit Scope js_scope with js.
Notation "'let*' x := m 'in' k" := (bind m (fun x => k))
  (at level 10, x name, m at level 100, k at level 200) : js_scope.
Notation "m ;;; k" := (bind m (fun _ => k))
  (at level 100, k at level 200, right associativity) : js_scope.

(** Sending a command: the request is recorded and the provider answers. *)
Definition send {P A} (call : Aws.Call) (op : P -> Outcome A * P) : M P A :=
  fun st =>
    let '(res, p') := op (aws st) in
    (res, mkAppState (store st) (dynamicEnvs st) (registeredClient st) p'
            (calls st ++ [call])).

(** ** src/aws/envConfig.ts *)

Module EnvConfig.
Section WithProvider.
Context {P : Type}.

Definition registerDynamicEnvironments (sessionId : string)
    (envs : list EnvironmentConfig) : M P unit :=
  fun st =>
    (Return tt, mkAppState (store st) (<[sessionId := envs]> (dynamicEnvs st))
                  (registeredClient st) (aws st) (calls st)).

Definition getDynamicEnvironments (sessionId : string) : M P (list EnvironmentConfig) :=
  fun st => (Return (default [] (dynamicEnvs st !! sessionId)), st).

Definition getEnvironment (envId sessionId : string) : M P EnvironmentConfig :=
  (let* dynEnvs := getDynamicEnvironments sessionId in
   match List.find (fun e => String.eqb (env_id e) envId) dynEnvs with
   | Some dynEnv => ret dynEnv
   | None => throw (new_Error ("Unknown environment id: " +:+ envId))
   end)%js.

End WithProvider.
End EnvConfig.

(** The session store as part of the process state. *)
Definition setSsoSession {P} (sessionId : string)
    (session : SessionStore.ConnectedSsoSession) : M P unit :=
  fun st =>
    (Return tt, mkAppState (SessionStore.setSsoSession sessionId session (store st))
                  (dynamicEnvs st) (registeredClient st) (aws st) (calls st)).

Definition getSsoSession {P} (now : Z) (sessionId : string)
    : M P (option SessionStore.ConnectedSsoSession) :=
  fun st =>
    let '(value, store') := SessionStore.getSsoSession now sessionId (store st) in
    (Return value, mkAppState store' (dynamicEnvs st) (registeredClient st)
                     (aws st) (calls st)).

(** Truthiness of an optional number ([undefined] and [0] are falsy). *)
Definition truthy_opt_number (o : option Z) : bool :=
  match o with None => false | Some n => negb (n =? 0) end.

(** ** src/aws/ssoLogin.ts *)

Module SsoLogin.

(** [SsoProfile] (src/aws/ssoProfiles.ts) *)
Record SsoProfile := mkSsoProfile {
  name : string;
  displayName : string;
  defaultRegion : option string;
  ssoStartUrl : string;
  ssoRegion : string;
  ssoAccountId : string;
  ssoRoleName : string;
  ssoSession : string;
}.

Record StartLoginResult := mkStartLoginResult {
  deviceCode : string;
  verificationUri : string;
  userCode : string;
  intervalSeconds : Z;
  expiresAt : Z;
}.

Record PollLoginResult := mkPollLoginResult {
  success : bool;
  pending : option bool;
}.

(** [anyErr?.name === "AuthorizationPendingException" ||
     anyErr?.error === "authorization_pending"] *)
Definition is_authorization_pending (e : JsError) : bool :=
  bool_decide (err_name e = Some "AuthorizationPendingException")
  || bool_decide (err_error e = Some "authorization_pending").

Section WithProvider.
Context {P : Type} `{Aws.AwsProvider P}.

Definition set_registeredClient (c : RegisteredClient) : M P unit :=
  fun st =>
    (Return tt, mkAppState (store st) (dynamicEnvs st) (Some c) (aws st) (calls st)).

Definition getRegisteredClient (region : string) : M P RegisteredClient :=
  fun st =>
    match registeredClient st with
    | Some c => (Return c, st)
    | None =>
        (let* res := send (Aws.RegisterClientCommand region
                             "sqs-dlq-redrive-webapp" "public")
                          (Aws.registerClient region
                             "sqs-dlq-redrive-webapp" "public") in
         match Aws.rcr_clientId res, Aws.rcr_clientSecret res with
         | Some cid, Some csecret =>
             if truthy_string cid && truthy_string csecret then
               let c := mkRegisteredClient cid csecret in
               (set_registeredClient c;;; ret c)
             else throw (new_Error "Failed to register SSO OIDC client")
         | _, _ => throw (new_Error "Failed to register SSO OIDC client")
         end)%js st
    end.

(** [profiles] is what [loadSsoProfiles()] reads from the configuration file
    at the call; [now] is [Date.now()]. *)
Definition startLogin (profiles : list SsoProfile) (now : Z)
    (profileName : string) : M P StartLoginResult :=
  match List.find (fun p => String.eqb (name p) profileName) profiles with
  | None => throw (new_Error ("Unknown SSO profile: " +:+ profileName))
  | Some profile =>
      (let* c := getRegisteredClient (ssoRegion profile) in
       let* res := send (Aws.StartDeviceAuthorizationCommand (ssoRegion profile)
                           (clientId c) (clientSecret c) (ssoStartUrl profile))
                        (Aws.startDeviceAuthorization (ssoRegion profile)
                           (clientId c) (clientSecret c) (ssoStartUrl profile)) in
       if truthy_opt_string (Aws.sda_deviceCode res)
          && truthy_opt_string (Aws.sda_verificationUriComplete res)
          && truthy_opt_string (Aws.sda_userCode res)
          && truthy_opt_number (Aws.sda_interval res)
          && truthy_opt_number (Aws.sda_expiresIn res)
       then
         ret (mkStartLoginResult
                (default EmptyString (Aws.sda_deviceCode res))
                (default EmptyString (Aws.sda_verificationUriComplete res))
                (default EmptyString (Aws.sda_userCode res))
                (default 0 (Aws.sda_interval res))
                (now + default 0 (Aws.sda_expiresIn res) * 1000))
       else throw (new_Error "Incomplete device authorization response from SSO"))%js
  end.

Definition grant_type : string := "urn:ietf:params:oauth:grant-type:device_code".

Definition pollForLogin (profiles : list SsoProfile) (now : Z)
    (profileName deviceCode sessionId : string) : M P PollLoginResult :=
  match List.find (fun p => String.eqb (name p) profileName) profiles with
  | None => throw (new_Error ("Unknown SSO profile: " +:+ profileName))
  | Some profile =>
      (let* c := getRegisteredClient (ssoRegion profile) in
       (* [Some tokenRes] when the call returned, [None] when the catch
          block returned the pending result *)
       let* tokenRes :=
         try_catch
           (let* r := send (Aws.CreateTokenCommand (ssoRegion profile)
                              (clientId c) (clientSecret c) deviceCode grant_type)
                           (Aws.createToken (ssoRegion profile)
                              (clientId c) (clientSecret c) deviceCode grant_type) in
            ret (Some r))
           (fun err =>
              if is_authorization_pending err then ret None else throw err) in
       match tokenRes with
       | None => ret (mkPollLoginResult false (Some true))
       | Some tokenRes =>
           match Aws.ctr_accessToken tokenRes, Aws.ctr_expiresIn tokenRes with
           | Some token, Some expiresIn =>
               if truthy_string token && negb (expiresIn =? 0) then
                 (setSsoSession sessionId
                    (SessionStore.mkSession (ssoSession profile) (ssoRegion profile)
                       token (Some (now + expiresIn * 1000)));;;
                  ret (mkPollLoginResult true None))
               else throw (new_Error "Failed to obtain SSO access token")
           | _, _ => throw (new_Error "Failed to obtain SSO access token")
           end
       end)%js
  end.

End WithProvider.
End SsoLogin.

(** ** src/aws/sqsService.ts *)

Module SqsService.

Record PreviewOptions := mkPreviewOptions {
  maxMessages : Z;
  waitTimeSeconds : option Z;
  visibilityTimeout : option Z;
}.

Record RedriveInputMessage := mkRedriveInputMessage {
  messageId : string;
  receiptHandle : string;
  body : string;
  messageAttributes : option string;
}.

Record RedriveResultSummary := mkSummary {
  sent : Z;
  sendFailed : Z;
  deleted : Z;
  deleteFailed : Z;
}.

(** [Math.max(1, Math.min(options.maxMessages, 5000))] *)
Definition clamp (maxMessages : Z) : Z := Z.max 1 (Z.min maxMessages 5000).

(** [msg.MessageId ?? ...]: the id, or the empty string when there is none. *)
Definition dedup_key (msg : RawMessage) : string :=
  default EmptyString (MessageId msg).

(** The [for (const msg of batch)] loop of [receiveDeduplicated]: the set of
    seen ids, the messages and the count of new ones after it. *)
Fixpoint dedup_batch (batch : list RawMessage) (seen : gset string)
    (messages : list RawMessage) (newInBatch : Z)
    : gset string * list RawMessage * Z :=
  match batch with
  | [] => (seen, messages, newInBatch)
  | msg :: rest =>
      let id := dedup_key msg in
      if bool_decide (id ∈ seen) then dedup_batch rest seen messages newInBatch
      else dedup_batch rest ({[id]} ∪ seen) (messages ++ [msg]) (newInBatch + 1)
  end.

(** The template literal [`${index}-${m.messageId}`]. *)
Definition entry_id (index : nat) (m : RedriveInputMessage) : string :=
  pretty index +:+ "-" +:+ messageId m.

(** [batch.slice(i, i + 10)] *)
Definition slice {A} (l : list A) (from to : nat) : list A :=
  take (to - from) (drop from l).

(** [batch.filter((m, idx) => keep(idx, m))], indices counted from [idx]. *)
Fixpoint filter_indexed {A} (keep : nat -> A -> bool) (idx : nat) (l : list A)
    : list A :=
  match l with
  | [] => []
  | x :: rest =>
      if keep idx x then x :: filter_indexed keep (S idx) rest
      else filter_indexed keep (S idx) rest
  end.

(** The deduplication keys of a list of messages, in order. *)
Definition keys (messages : list RawMessage) : list string :=
  dedup_key <$> messages.

(** The message has no [MessageId]. *)
Definition id_less (msg : RawMessage) : Prop := MessageId msg = None.

#[global] Instance id_less_dec msg : Decision (id_less msg).
Proof. unfold id_less. apply _. Defined.

Definition is_receive (call : Aws.Call) : Prop :=
  match call with Aws.ReceiveMessageCommand _ _ => True | _ => False end.


Section WithProvider.
Context {P : Type} `{Aws.AwsProvider P}.

(** The provider keeps to the contract of [ReceiveMessage]: an answer holds
    at most [MaxNumberOfMessages] messages. *)
Definition honours_limit : Prop :=
  forall client input p batch p',
    Aws.receiveMessage client input p = (Return (Some batch), p') ->
    (length batch <= Z.to_nat (Aws.rm_MaxNumberOfMessages input))%nat.

Definition createSqsClient (now : Z) (envId region sessionId : string)
    : M P Aws.SQSClient :=
  (let* env := EnvConfig.getEnvironment envId sessionId in
   let* session := getSsoSession now sessionId in
   match session with
   | None => throw (new_Error "No active SSO session for this client")
   | Some session =>
       if negb (truthy_opt_string (env_ssoAccountId env))
          || negb (truthy_opt_string (env_ssoRoleName env))
       then throw (new_Error "Environment is missing SSO account info")
       else
         let accountId := default EmptyString (env_ssoAccountId env) in
         let roleName := default EmptyString (env_ssoRoleName env) in
         let* rc := send (Aws.GetRoleCredentialsCommand
                            (SessionStore.ssoRegion session)
                            (SessionStore.accessToken session) accountId roleName)
                         (Aws.getRoleCredentials
                            (SessionStore.ssoRegion session)
                            (SessionStore.accessToken session) accountId roleName) in
         match rc with
         | Some rc =>
             if truthy_opt_string (Aws.rc_accessKeyId rc)
                && truthy_opt_string (Aws.rc_secretAccessKey rc)
             then ret (Aws.mkSQSClient region
                         (default EmptyString (Aws.rc_accessKeyId rc))
                         (default EmptyString (Aws.rc_secretAccessKey rc))
                         (Aws.rc_sessionToken rc))
             else throw (new_Error
                    "Failed to get role credentials from SSO for environment")
         | None => throw (new_Error
                    "Failed to get role credentials from SSO for environment")
         end
   end)%js.

(** The [while (messages.length < maxMessages)] loop.  [fuel] bounds the
    number of iterations; [None] is reported when it is used up. *)
Fixpoint receive_loop (fuel : nat) (client : Aws.SQSClient) (queueUrl : string)
    (options : PreviewOptions) (maxMessages : Z)
    (seen : gset string) (messages : list RawMessage) (st : AppState P)
    : option (Outcome (list RawMessage) * AppState P) :=
  if Z.of_nat (length messages) <? maxMessages then
    match fuel with
    | O => None
    | S fuel' =>
        let batchSize := Z.min 10 (maxMessages - Z.of_nat (length messages)) in
        let input := Aws.mkReceiveMessageRequest queueUrl batchSize
                       (default 1 (waitTimeSeconds options))
                       (visibilityTimeout options) ["All"] ["All"] in
        match send (Aws.ReceiveMessageCommand client input)
                   (Aws.receiveMessage client input) st with
        | (Throw e, st') => Some (Throw e, st')
        | (Return res, st') =>
            let batch := default [] res in
            if (length batch =? 0)%nat then Some (Return messages, st')
            else
              let '(seen', messages', newInBatch) :=
                dedup_batch batch seen messages 0 in
              if newInBatch =? 0 then Some (Return messages', st')
              else receive_loop fuel' client queueUrl options maxMessages
                     seen' messages' st'
        end
    end
  else Some (Return messages, st).

Definition receiveDeduplicated (client : Aws.SQSClient) (queueUrl : string)
    (options : PreviewOptions) (st : AppState P)
    : option (Outcome (list RawMessage) * AppState P) :=
  let maxMessages := clamp (maxMessages options) in
  receive_loop (Z.to_nat maxMessages) client queueUrl options maxMessages ∅ [] st.

(** The body of the [for (let i = 0; ...; i += 10)] loop of
    [redriveMessages]: the four counters after the batch that starts at [i]. *)
Definition redrive_batch (client : Aws.SQSClient) (dlqUrl targetUrl : string)
    (messages : list RedriveInputMessage) (deleteAfterSend : bool)
    (i : nat) (acc : RedriveResultSummary) : M P RedriveResultSummary :=
  (let batch := slice messages i (i + 10) in
   let sendEntries :=
     imap (fun idx m => Aws.mkSendEntry (entry_id (i + idx) m) (body m)
                          (messageAttributes m)) batch in
   let* failed := send (Aws.SendMessageBatchCommand client targetUrl sendEntries)
                       (Aws.sendMessageBatch client targetUrl sendEntries) in
   let failedSendIds : gset (option string) :=
     list_to_set (Aws.bre_Id <$> default [] failed) in
   let successfulBatch :=
     filter_indexed
       (fun idx m => negb (bool_decide (Some (entry_id (i + idx) m) ∈ failedSendIds)))
       0 batch in
   let sent' := sent acc + Z.of_nat (length successfulBatch) in
   let sendFailed' :=
     sendFailed acc + (Z.of_nat (length batch) - Z.of_nat (length successfulBatch)) in
   if deleteAfterSend && (0 <? length successfulBatch)%nat then
     let deleteEntries :=
       imap (fun idx m => Aws.mkDeleteEntry (entry_id (i + idx) m) (receiptHandle m))
            successfulBatch in
     let* dfailed := send (Aws.DeleteMessageBatchCommand client dlqUrl deleteEntries)
                          (Aws.deleteMessageBatch client dlqUrl deleteEntries) in
     let failedDeleteCount := Z.of_nat (length (default [] dfailed)) in
     ret (mkSummary sent' sendFailed'
            (deleted acc + (Z.of_nat (length successfulBatch) - failedDeleteCount))
            (deleteFailed acc + failedDeleteCount))
   else ret (mkSummary sent' sendFailed' (deleted acc) (deleteFailed acc)))%js.

(** The [for] loop, from index [i] on.  [fuel] bounds the number of
    iterations; [None] is reported when it is used up. *)
Fixpoint redrive_loop (fuel : nat) (client : Aws.SQSClient) (dlqUrl targetUrl : string)
    (messages : list RedriveInputMessage) (deleteAfterSend : bool)
    (i : nat) (acc : RedriveResultSummary) (st : AppState P)
    : option (Outcome RedriveResultSummary * AppState P) :=
  if (i <? length messages)%nat then
    match fuel with
    | O => None
    | S fuel' =>
        match redrive_batch client dlqUrl targetUrl messages deleteAfterSend i acc st with
        | (Throw e, st') => Some (Throw e, st')
        | (Return acc', st') =>
            redrive_loop fuel' client dlqUrl targetUrl messages deleteAfterSend
              (i + 10) acc' st'
        end
    end
  else Some (Return acc, st).

Definition redriveMessages (now : Z) (envId region sessionId dlqUrl targetUrl : string)
    (messages : list RedriveInputMessage) (deleteAfterSend : bool) (st : AppState P)
    : option (Outcome RedriveResultSummary * AppState P) :=
  match createSqsClient now envId region sessionId st with
  | (Throw e, st') => Some (Throw e, st')
  | (Return client, st') =>
      redrive_loop (length messages) client dlqUrl targetUrl messages deleteAfterSend
        0 (mkSummary 0 0 0 0) st'
  end.


End WithProvider.
End SqsService.

(** ** Providers for running the functions on concrete inputs *)

Module MockAws.
Import Aws.

(** The answers queued for each command, as with [mockResolvedValueOnce] and
    [mockRejectedValueOnce] in the test suites. *)
Record Script := mkScript {
  on_registerClient : list (Outcome RegisterClientResponse);
  on_startDeviceAuthorization : list (Outcome StartDeviceAuthorizationResponse);
  on_createToken : list (Outcome CreateTokenResponse);
  on_getRoleCredentials : list (Outcome (option RoleCredentials));
  on_receiveMessage : list (Outcome (option (list RawMessage)));
  on_sendMessageBatch : list (Outcome (option (list BatchResultErrorEntry)));
  on_deleteMessageBatch : list (Outcome (option (list BatchResultErrorEntry)));
}.

Definition exhausted : JsError :=
  {| err_name := Some "TypeError";
     err_message := "Cannot read properties of undefined";
     err_error := None |}.

(** The next queued answer, and the queue after it. *)
Definition next {A} (queue : list (Outcome A)) : Outcome A * list (Outcome A) :=
  match queue with
  | [] => (Throw exhausted, [])
  | answer :: rest => (answer, rest)
  end.

#[global] Instance scripted : AwsProvider Script := {|
  registerClient _ _ _ p :=
    let '(a, q) := next (on_registerClient p) in
    (a, mkScript q (on_startDeviceAuthorization p) (on_createToken p)
          (on_getRoleCredentials p) (on_receiveMessage p)
          (on_sendMessageBatch p) (on_deleteMessageBatch p));
  startDeviceAuthorization _ _ _ _ p :=
    let '(a, q) := next (on_startDeviceAuthorization p) in
    (a, mkScript (on_registerClient p) q (on_createToken p)
          (on_getRoleCredentials p) (on_receiveMessage p)
          (on_sendMessageBatch p) (on_deleteMessageBatch p));
  createToken _ _ _ _ _ p :=
    let '(a, q) := next (on_createToken p) in
    (a, mkScript (on_registerClient p) (on_startDeviceAuthorization p) q
          (on_getRoleCredentials p) (on_receiveMessage p)
          (on_sendMessageBatch p) (on_deleteMessageBatch p));
  getRoleCredentials _ _ _ _ p :=
    let '(a, q) := next (on_getRoleCredentials p) in
    (a, mkScript (on_registerClient p) (on_startDeviceAuthorization p)
          (on_createToken p) q (on_receiveMessage p)
          (on_sendMessageBatch p) (on_deleteMessageBatch p));
  receiveMessage _ _ p :=
    let '(a, q) := next (on_receiveMessage p) in
    (a, mkScript (on_registerClient p) (on_startDeviceAuthorization p)
          (on_createToken p) (on_getRoleCredentials p) q
          (on_sendMessageBatch p) (on_deleteMessageBatch p));
  sendMessageBatch _ _ _ p :=
    let '(a, q) := next (on_sendMessageBatch p) in
    (a, mkScript (on_registerClient p) (on_startDeviceAuthorization p)
          (on_createToken p) (on_getRoleCredentials p) (on_receiveMessage p)
          q (on_deleteMessageBatch p));
  deleteMessageBatch _ _ _ p :=
    let '(a, q) := next (on_deleteMessageBatch p) in
    (a, mkScript (on_registerClient p) (on_startDeviceAuthorization p)
          (on_createToken p) (on_getRoleCredentials p) (on_receiveMessage p)
          (on_sendMessageBatch p) q);
|}.

(** A queue service that keeps to its contract: a receive request is answered
    with at most [MaxNumberOfMessages] of the messages queued for it. *)
Record Capped := mkCapped { capped_script : Script }.

Definition cap (limit : Z) (answer : Outcome (option (list RawMessage)))
    : Outcome (option (list RawMessage)) :=
  match answer with
  | Return (Some batch) => Return (Some (take (Z.to_nat limit) batch))
  | other => other
  end.

Definition lift_capped {A} (op : Script -> Outcome A * Script) (p : Capped)
    : Outcome A * Capped :=
  let '(a, s) := op (capped_script p) in (a, mkCapped s).

#[global] Instance capped : AwsProvider Capped := {|
  registerClient r n t := lift_capped (registerClient r n t);
  startDeviceAuthorization r c s u := lift_capped (startDeviceAuthorization r c s u);
  createToken r c s d g := lift_capped (createToken r c s d g);
  getRoleCredentials r t a n := lift_capped (getRoleCredentials r t a n);
  receiveMessage c input p :=
    let '(a, s) := receiveMessage c input (capped_script p) in
    (cap (rm_MaxNumberOfMessages input) a, mkCapped s);
  sendMessageBatch c u e := lift_capped (sendMessageBatch c u e);
  deleteMessageBatch c u e := lift_capped (deleteMessageBatch c u e);
|}.

Definition empty_script : Script := mkScript [] [] [] [] [] [] [].

(** A process that has just started. *)
Definition initial {P} (p : P) : AppState P := mkAppState ∅ ∅ None p [].

End MockAws.

(** ** src/aws/ssoDiscovery.ts *)

Module SsoDiscovery.

(** [AccountInfo] and [RoleInfo] of the SSO client, with the fields read. *)
Record AccountInfo := mkAccountInfo {
  accountId : option string;
  accountName : option string;
}.

Record RoleInfo := mkRoleInfo {
  roleName : option string;
}.

Record ListAccountsResponse := mkListAccountsResponse {
  accountList : option (list AccountInfo);
  la_nextToken : option string;
}.

Record ListAccountRolesResponse := mkListAccountRolesResponse {
  roleList : option (list RoleInfo);
  lr_nextToken : option string;
}.

(** The two paginated listings of the SSO portal.  The arguments are the
    client's region, the access token, (the account id) and the [nextToken]
    of the request. *)
Class SsoDirectory (P : Type) := {
  listAccounts : string -> string -> option string -> P
                 -> Outcome ListAccountsResponse * P;
  listAccountRoles : string -> string -> string -> option string -> P
                 -> Outcome ListAccountRolesResponse * P;
}.

(** [account.accountName || account.accountId] *)
Definition account_label (accountId : string) (account : AccountInfo) : string :=
  match accountName account with
  | Some n => if truthy_string n then n else accountId
  | None => accountId
  end.

(** The [for (const role of roles)] loop: the environments it pushes. *)
Fixpoint push_roles (ssoRegion accountId : string) (account : AccountInfo)
    (roles : list RoleInfo) (environments : list EnvironmentConfig)
    : list EnvironmentConfig :=
  match roles with
  | [] => environments
  | role :: rest =>
      match roleName role with
      | Some rn =>
          if truthy_string rn then
            push_roles ssoRegion accountId account rest
              (environments ++
               [mkEnvironmentConfig
                  (accountId +:+ "-" +:+ rn)
                  (account_label accountId account +:+ " (" +:+ rn +:+ ")")
                  [ssoRegion] (Some accountId) (Some rn)])
          else push_roles ssoRegion accountId account rest environments
      | None => push_roles ssoRegion accountId account rest environments
      end
  end.

Section WithDirectory.
Context {P : Type} `{SsoDirectory P}.

(** The first [do ... while (nextToken)] loop.  [fuel] bounds the number of
    pages; [None] is reported when it is used up. *)
Fixpoint list_accounts (fuel : nat) (session : SessionStore.ConnectedSsoSession)
    (accounts : list AccountInfo) (nextToken : option string) (p : P)
    : option (Outcome (list AccountInfo) * P) :=
  match fuel with
  | O => None
  | S fuel' =>
      match listAccounts (SessionStore.ssoRegion session)
              (SessionStore.accessToken session) nextToken p with
      | (Throw e, p') => Some (Throw e, p')
      | (Return res, p') =>
          let accounts' := accounts ++ default [] (accountList res) in
          if truthy_opt_string (la_nextToken res)
          then list_accounts fuel' session accounts' (la_nextToken res) p'
          else Some (Return accounts', p')
      end
  end.

(** The [do ... while (roleNextToken)] loop for one account. *)
Fixpoint list_roles (fuel : nat) (session : SessionStore.ConnectedSsoSession)
    (accountId : string) (roles : list RoleInfo) (roleNextToken : option string)
    (p : P) : option (Outcome (list RoleInfo) * P) :=
  match fuel with
  | O => None
  | S fuel' =>
      match listAccountRoles (SessionStore.ssoRegion session)
              (SessionStore.accessToken session) accountId roleNextToken p with
      | (Throw e, p') => Some (Throw e, p')
      | (Return res, p') =>
          let roles' := roles ++ default [] (roleList res) in
          if truthy_opt_string (lr_nextToken res)
          then list_roles fuel' session accountId roles' (lr_nextToken res) p'
          else Some (Return roles', p')
      end
  end.

(** The [for (const account of accounts)] loop. *)
Fixpoint discover_accounts (fuel : nat) (session : SessionStore.ConnectedSsoSession)
    (accounts : list AccountInfo) (environments : list EnvironmentConfig) (p : P)
    : option (Outcome (list EnvironmentConfig) * P) :=
  match accounts with
  | [] => Some (Return environments, p)
  | account :: rest =>
      match accountId account with
      | Some aid =>
          if truthy_string aid then
            match list_roles fuel session aid [] None p with
            | None => None
            | Some (Throw e, p') => Some (Throw e, p')
            | Some (Return roles, p') =>
                discover_accounts fuel session rest
                  (push_roles (SessionStore.ssoRegion session) aid account roles
                     environments) p'
            end
          else discover_accounts fuel session rest environments p
      | None => discover_accounts fuel session rest environments p
      end
  end.

(** [fuel] bounds the pages of each listing: the source has no bound of its
    own, it follows the continuation tokens for as long as they come. *)
Definition discoverSsoEnvironments (fuel : nat)
    (session : SessionStore.ConnectedSsoSession) (p : P)
    : option (Outcome (list EnvironmentConfig) * P) :=
  match list_accounts fuel session [] None p with
  | None => None
  | Some (Throw e, p') => Some (Throw e, p')
  | Some (Return accounts, p') => discover_accounts fuel session accounts [] p'
  end.

End WithDirectory.

(** *** Vocabulary *)

(** An environment as discovery builds it, for the SSO region [ssoRegion]. *)
Definition well_formed (ssoRegion : string) (env : EnvironmentConfig) : Prop :=
  exists aid rn,
    aid <> EmptyString /\ rn <> EmptyString
    /\ env_id env = aid +:+ "-" +:+ rn
    /\ env_regions env = [ssoRegion]
    /\ env_ssoAccountId env = Some aid
    /\ env_ssoRoleName env = Some rn.

(** The accounts and roles that discovery keeps. *)
Definition usable_account (account : AccountInfo) : option string :=
  match accountId account with
  | Some aid => if truthy_string aid then Some aid else None
  | None => None
  end.

(** The environment built for one role of the account [aid], if the role
    has a name. *)
Definition role_env (ssoRegion aid : string) (account : AccountInfo)
    (role : RoleInfo) : option EnvironmentConfig :=
  match roleName role with
  | Some rn =>
      if truthy_string rn then
        Some (mkEnvironmentConfig
                (aid +:+ "-" +:+ rn)
                (account_label aid account +:+ " (" +:+ rn +:+ ")")
                [ssoRegion] (Some aid) (Some rn))
      else None
  | None => None
  end.

(** The environments of one account, given the roles listed for each
    account id. *)
Definition account_envs (ssoRegion : string) (roles_of : string -> list RoleInfo)
    (account : AccountInfo) : list EnvironmentConfig :=
  match usable_account account with
  | Some aid => omap (role_env ssoRegion aid account) (roles_of aid)
  | None => []
  end.

(** *** A directory given by its pages

    The account listing has the pages [dir_accounts]; the role listing of
    account [a] has the pages [dir_roles a].  The token of page [k] is the
    decimal rendering of [k]; the last page carries no token. *)
Record Paged := mkPaged {
  dir_accounts : list (list AccountInfo);
  dir_roles : string -> list (list RoleInfo);
}.

(** The index of the page that a request asks for. *)
Fixpoint page_index (token : string) (k : nat) (count : nat) : option nat :=
  match count with
  | O => None
  | S count' =>
      if String.eqb (pretty k) token then Some k
      else page_index token (S k) count'
  end.

Definition requested_page {A} (pages : list (list A)) (token : option string)
    : option nat :=
  match token with
  | None => Some 0%nat
  | Some t => page_index t 0 (length pages)
  end.

Definition token_after {A} (pages : list (list A)) (k : nat) : option string :=
  if (S k <? length pages)%nat then Some (pretty (S k)) else None.

Definition bad_token : JsError :=
  {| err_name := Some "InvalidRequestException";
     err_message := "Invalid nextToken";
     err_error := None |}.

#[global] Instance paged_directory : SsoDirectory Paged := {|
  listAccounts _ _ token p :=
    match requested_page (dir_accounts p) token with
    | Some k =>
        (Return (mkListAccountsResponse (dir_accounts p !! k)
                   (token_after (dir_accounts p) k)), p)
    | None => (Throw bad_token, p)
    end;
  listAccountRoles _ _ aid token p :=
    match requested_page (dir_roles p aid) token with
    | Some k =>
        (Return (mkListAccountRolesResponse (dir_roles p aid !! k)
                   (token_after (dir_roles p aid) k)), p)
    | None => (Throw bad_token, p)
    end;
|}.

(** The pages of every listing fit in [fuel]. *)
Definition fits (fuel : nat) (p : Paged) : Prop :=
  (1 <= fuel)%nat
  /\ (length (dir_accounts p) <= fuel)%nat
  /\ forall account aid,
       account ∈ concat (dir_accounts p) -> usable_account account = Some aid ->
       (length (dir_roles p aid) <= fuel)%nat.

(** A directory that answers every request with an empty page and a
    continuation token. *)
#[global] Instance endless_directory : SsoDirectory unit := {|
  listAccounts _ _ _ p := (Return (mkListAccountsResponse (Some []) (Some "more")), p);
  listAccountRoles _ _ _ _ p :=
    (Return (mkListAccountRolesResponse (Some []) (Some "more")), p);
|}.

End SsoDiscovery.

(** ** Vocabulary for the properties of Part III *)

(** [dynEnvs.find((e) => e.id === envId)] on the environments registered for
    the session. *)
Definition registered_env {P} (st : AppState P) (envId sessionId : string)
    : option EnvironmentConfig :=
  List.find (fun e => String.eqb (env_id e) envId)
    (default [] (dynamicEnvs st !! sessionId)).

(** The state with another session store. *)
Definition with_store {P} (st : AppState P) (s : SessionStore.Store) : AppState P :=
  mkAppState s (dynamicEnvs st) (registeredClient st) (aws st) (calls st).

(** A provider on which every operation succeeds and no batch entry fails. *)
Module ReliableAws.
Import Aws.

#[global] Instance reliable : AwsProvider unit := {|
  registerClient _ _ _ p :=
    (Return (mkRegisterClientResponse (Some "cid") (Some "secret")), p);
  startDeviceAuthorization _ _ _ _ p :=
    (Return (mkStartDeviceAuthorizationResponse (Some "dc") (Some "https://verify")
               (Some "ABCD") (Some 5) (Some 600)), p);
  createToken _ _ _ _ _ p :=
    (Return (mkCreateTokenResponse (Some "token") (Some 28800)), p);
  getRoleCredentials _ _ _ _ p :=
    (Return (Some (mkRoleCredentials (Some "AKIA") (Some "secret") None)), p);
  receiveMessage _ _ p := (Return None, p);
  sendMessageBatch _ _ _ p := (Return (Some []), p);
  deleteMessageBatch _ _ _ p := (Return None, p);
|}.

End ReliableAws.

(** The body parses to [parsed] but the attribute path does not resolve. *)
Definition unresolved `{JsRuntime V} (msg : RawMessage) (attributePath : string)
    (parsed : V) : Prop :=
  exists body,
    Body msg = Some body /\ body <> EmptyString
    /\ JSON_parse body = Return parsed
    /\ is_undefined (JsonFilter.getByPath parsed attributePath) = true.

(** The body of the entry's message parses to the entry's [parsedBody]. *)
Definition parsed_from `{JsRuntime V} (fm : JsonFilter.FilteredMessage) : Prop :=
  exists body,
    Body (JsonFilter.raw fm) = Some body /\ body <> EmptyString
    /\ JSON_parse body = Return (JsonFilter.parsedBody fm).

(** The three kinds of entries of a filter result. *)
Definition error_entry `{JsRuntime V} (fm : JsonFilter.FilteredMessage) : Prop :=
  exists e, JsonFilter.parse_fails (JsonFilter.raw fm) e
            /\ fm = JsonFilter.mkFiltered (JsonFilter.raw fm) undefined undefined
                      (Some (err_message e)).

Definition absent_entry `{JsRuntime V} (attributePath : string)
    (fm : JsonFilter.FilteredMessage) : Prop :=
  unresolved (JsonFilter.raw fm) attributePath (JsonFilter.parsedBody fm)
  /\ fm = JsonFilter.mkFiltered (JsonFilter.raw fm) (JsonFilter.parsedBody fm)
            undefined None.

(** The entry carries the value found at the path, as parsed (not its
    string), and that value stringifies to [str]. *)
Definition value_entry `{JsRuntime V} (attributePath : string) (str : string)
    (fm : JsonFilter.FilteredMessage) : Prop :=
  parsed_from fm
  /\ JsonFilter.getByPath (JsonFilter.parsedBody fm) attributePath
     = JsonFilter.attributeValue fm
  /\ is_undefined (JsonFilter.attributeValue fm) = false
  /\ String_ (JsonFilter.attributeValue fm) = Return str
  /\ JsonFilter.parseError fm = None.


(** A batch request as [redriveMessages] may send it: a send to the target
    queue or, when deleting after send, a delete on the source queue, with
    between one and ten entries whose ids are pairwise different. *)
Definition redrive_request_ok (dlqUrl targetUrl : string) (deleteAfterSend : bool)
    (call : Aws.Call) : Prop :=
  match call with
  | Aws.SendMessageBatchCommand _ url entries =>
      url = targetUrl /\ (1 <= length entries <= 10)%nat
      /\ NoDup (Aws.se_Id <$> entries)
  | Aws.DeleteMessageBatchCommand _ url entries =>
      deleteAfterSend = true /\ url = dlqUrl /\ (1 <= length entries <= 10)%nat
      /\ NoDup (Aws.de_Id <$> entries)
  | _ => False
  end.

Definition is_send (call : Aws.Call) : bool :=
  match call with Aws.SendMessageBatchCommand _ _ _ => true | _ => false end.

Definition is_exchange (call : Aws.Call) : Prop :=
  match call with Aws.GetRoleCredentialsCommand _ _ _ _ => True | _ => False end.

(** No batch entry is ever reported as failed. *)
Definition no_failures {P} `{Aws.AwsProvider P} : Prop :=
  (forall client url entries (p p' : P) failed,
      Aws.sendMessageBatch client url entries p = (Return failed, p') ->
      default [] failed = [])
  /\ (forall client url entries (p p' : P) failed,
      Aws.deleteMessageBatch client url entries p = (Return failed, p') ->
      default [] failed = []).

(** * Part II: properties *)

Lemma truthy_string_false s : truthy_string s = false <-> s = EmptyString.
Proof. destruct s; simpl; split; congruence. Qed.

Lemma truthy_string_true s : s <> EmptyString -> truthy_string s = true.
Proof. by destruct s. Qed.

Lemma truthy_opt_string_false o :
  truthy_opt_string o = false <-> o = None \/ o = Some EmptyString.
Proof.
  destruct o as [s|]; simpl.
  - rewrite truthy_string_false.
    split; [intros ->; auto | intros [?| [= ->]]; congruence].
  - split; auto.
Qed.

(** ** Properties of the session store *)

Module SessionStoreFacts.
Import SessionStore.

Lemma getSsoSession_absent now sid (store : Store) :
  store !! sid = None -> getSsoSession now sid store = (None, store).
Proof. intros H. unfold getSsoSession. by rewrite H. Qed.

(** A read never adds an entry. *)
Lemma getSsoSession_lookup_None now sid sid' (store : Store) :
  store !! sid' = None -> snd (getSsoSession now sid store) !! sid' = None.
Proof.
  intros H. unfold getSsoSession.
  destruct (store !! sid) as [v|] eqn:E; simpl; [|done].
  destruct (expiresAt v) as [t|]; simpl; [|done].
  destruct (t <=? now); simpl; [|done].
  destruct (decide (sid = sid')) as [->|Hne].
  - apply lookup_delete_eq.
  - by rewrite lookup_delete_ne.
Qed.

Lemma run_op_absent op sid (store : Store) :
  no_put sid [op] -> store !! sid = None -> run_op op store !! sid = None.
Proof.
  intros Hnp H. destruct op as [now sid'|sid' s]; simpl.
  - by apply getSsoSession_lookup_None.
  - unfold setSsoSession. unfold no_put in Hnp.
    rewrite Forall_singleton in Hnp.
    rewrite lookup_insert_ne; [exact H | exact Hnp].
Qed.

Lemma run_ops_absent ops sid (store : Store) :
  no_put sid ops -> store !! sid = None -> run_ops ops store !! sid = None.
Proof.
  revert store. induction ops as [|op ops IH]; intros store Hnp H; simpl; [done|].
  apply Forall_cons in Hnp as [Hop Hops].
  apply IH; [done|]. apply run_op_absent; [|done].
  unfold no_put. by apply Forall_singleton.
Qed.

(** C4.  A stored session whose [expiresAt] has passed is not returned: the
    read answers [undefined] and deletes the entry; after any further reads
    (of any id, at any time) and writes to other ids, reading the same id
    still answers [undefined].  And whatever value a read does return is
    not expired at the time of that read. *)
Theorem getSsoSession_expired_evicted
    (store : Store) (sessionId : string) (sess : ConnectedSsoSession)
    (t now : Z)
    (Hstored : store !! sessionId = Some sess)
    (Hexp : expiresAt sess = Some t)
    (Hpast : t <= now) :
  getSsoSession now sessionId store = (None, delete sessionId store)
  /\ (forall ops now',
        no_put sessionId ops ->
        fst (getSsoSession now' sessionId
               (run_ops ops (snd (getSsoSession now sessionId store)))) = None)
  /\ (forall (store0 store1 : Store) now0 sid v,
        getSsoSession now0 sid store0 = (Some v, store1) ->
        ~ expired now0 v /\ store0 !! sid = Some v /\ store1 = store0).
Proof.
  assert (Hget : getSsoSession now sessionId store = (None, delete sessionId store)).
  { unfold getSsoSession. rewrite Hstored, Hexp.
    destruct (Z.leb_spec t now); [reflexivity|lia]. }
  split; [exact Hget|]. split.
  - intros ops now' Hnp. rewrite Hget; simpl.
    rewrite getSsoSession_absent; [done|].
    apply run_ops_absent; [done|]. apply lookup_delete_eq.
  - intros store0 store1 now0 sid v. unfold getSsoSession.
    destruct (store0 !! sid) as [v0|] eqn:E; [|discriminate].
    destruct (expiresAt v0) as [t0|] eqn:Et.
    + destruct (Z.leb_spec t0 now0); [discriminate|].
      intros [= <- <-]. split; [|done].
      intros (t1 & Ht1 & Hle). rewrite Et in Ht1. injection Ht1 as <-. lia.
    + intros [= <- <-]. split; [|done].
      intros (t1 & Ht1 & _). congruence.
Qed.

End SessionStoreFacts.

(** The theorem of C4 on a store whose only session expired at time 1000,
    read at time 2000. *)
Lemma getSsoSession_expired_evicted_witness :
  let sess := SessionStore.mkSession "my-sso" "eu-west-1" "token-abc" (Some 1000) in
  let store : SessionStore.Store := <["sess-1" := sess]> ∅ in
  SessionStore.getSsoSession 2000 "sess-1" store = (None, delete "sess-1" store)
  /\ (forall ops now',
        SessionStore.no_put "sess-1" ops ->
        fst (SessionStore.getSsoSession now' "sess-1"
               (SessionStore.run_ops ops
                  (snd (SessionStore.getSsoSession 2000 "sess-1" store)))) = None)
  /\ (forall (store0 store1 : SessionStore.Store) now0 sid v,
        SessionStore.getSsoSession now0 sid store0 = (Some v, store1) ->
        ~ SessionStore.expired now0 v /\ store0 !! sid = Some v /\ store1 = store0).
Proof.
  intros sess store.
  apply (SessionStoreFacts.getSsoSession_expired_evicted store "sess-1" sess 1000 2000).
  - reflexivity.
  - reflexivity.
  - lia.
Defined.

(** ** Properties of the attribute filter *)

Module JsonFilterFacts.
Import JsonFilter.

(** Appending to the results of a call that may throw. *)
Definition app_outcome {A} (l : list A) (o : Outcome (list A)) : Outcome (list A) :=
  match o with
  | Return r => Return (l ++ r)
  | Throw e => Throw e
  end.

Section Facts.
Context {V : Type} `{JsRuntime V}.
Variables (path expected : string).

Lemma filter_step_one exclude results msg :
  filter_step path expected exclude results msg
  = app_outcome results (filter_one path expected exclude msg).
Proof.
  unfold filter_one, filter_step.
  destruct (Body msg) as [body|]; simpl; [|by rewrite app_nil_r].
  destruct (truthy_string body); simpl; [|by rewrite app_nil_r].
  destruct (JSON_parse body) as [v|e]; simpl.
  - destruct (is_undefined _); [destruct exclude; simpl; by rewrite ?app_nil_r|].
    destruct (String_ _) as [str|e]; simpl; [|done].
    destruct (if exclude then _ else _); simpl; by rewrite ?app_nil_r.
  - destruct (truthy_string (err_message e)); simpl; [done|].
    destruct (is_undefined _); [destruct exclude; simpl; by rewrite ?app_nil_r|].
    destruct (String_ _) as [str|e']; simpl; [|done].
    destruct (if exclude then _ else _); simpl; by rewrite ?app_nil_r.
Qed.

Lemma filter_loop_results exclude messages results :
  filter_loop path expected exclude messages results
  = app_outcome results (filter_loop path expected exclude messages []).
Proof.
  revert results. induction messages as [|msg rest IH]; intros results; simpl.
  - by rewrite app_nil_r.
  - rewrite (filter_step_one _ results), (filter_step_one _ []).
    destruct (filter_one path expected exclude msg) as [r|e]; simpl; [|done].
    rewrite (IH (results ++ r)), (IH r).
    destruct (filter_loop _ _ _ rest []) as [r'|e]; simpl; [|done].
    by rewrite app_assoc.
Qed.

(** The loop, one message at a time. *)
Lemma filter_cons exclude msg rest :
  filterByAttributePath (msg :: rest) path expected exclude
  = match filter_one path expected exclude msg with
    | Throw e => Throw e
    | Return r => app_outcome r (filterByAttributePath rest path expected exclude)
    end.
Proof.
  unfold filterByAttributePath; simpl. rewrite filter_step_one.
  destruct (filter_one path expected exclude msg) as [r|e]; simpl; [|done].
  apply filter_loop_results.
Qed.

Lemma filter_app exclude l1 l2 :
  filterByAttributePath (l1 ++ l2) path expected exclude
  = match filterByAttributePath l1 path expected exclude with
    | Throw e => Throw e
    | Return r => app_outcome r (filterByAttributePath l2 path expected exclude)
    end.
Proof.
  induction l1 as [|msg l1 IH]; simpl.
  - change (filterByAttributePath [] path expected exclude)
      with (Return (@nil FilteredMessage)).
    by destruct (filterByAttributePath l2 path expected exclude).
  - rewrite !filter_cons.
    destruct (filter_one path expected exclude msg) as [r|e]; [|done].
    rewrite IH.
    destruct (filterByAttributePath l1 path expected exclude) as [r1|e]; simpl; [|done].
    destruct (filterByAttributePath l2 path expected exclude) as [r2|e]; simpl; [|done].
    by rewrite app_assoc.
Qed.

(** Every entry of a returned result was appended by the iteration of one of
    the input messages, and conversely. *)
Lemma filter_elem_of exclude messages out :
  filterByAttributePath messages path expected exclude = Return out ->
  forall fm, fm ∈ out <->
    exists msg r, msg ∈ messages
                  /\ filter_one path expected exclude msg = Return r /\ fm ∈ r.
Proof.
  revert out. induction messages as [|msg rest IH]; intros out.
  - intros [= <-] fm. split; [by intros ?%elem_of_nil|].
    by intros (? & ? & ?%elem_of_nil & _).
  - rewrite filter_cons.
    destruct (filter_one path expected exclude msg) as [r|e] eqn:E1; [|done].
    destruct (filterByAttributePath rest path expected exclude) as [r'|e] eqn:E2;
      simpl; [|done].
    intros [= <-] fm. rewrite elem_of_app, (IH r' eq_refl). split.
    + intros [Hin | (m & r0 & Hm & Hr0 & Hin)].
      * exists msg, r. split_and!; [apply elem_of_cons; by left | done | done].
      * exists m, r0. split_and!; [apply elem_of_cons; by right | done | done].
    + intros (m & r0 & [-> | Hm]%elem_of_cons & Hr0 & Hin).
      * left. congruence.
      * right. eauto.
Qed.


(** *** What one iteration does, by the kind of message *)

Lemma filter_one_no_body exclude msg :
  no_body msg -> filter_one path expected exclude msg = Return [].
Proof.
  unfold filter_one, filter_step. by intros [Hb | Hb]; rewrite Hb.
Qed.



(** The entries of one iteration all carry the iteration's message. *)
Lemma filter_one_raw exclude msg r fm :
  filter_one path expected exclude msg = Return r -> fm ∈ r -> raw fm = msg.
Proof.
  unfold filter_one, filter_step.
  destruct (Body msg) as [body|]; [|by intros [= <-] ?%elem_of_nil].
  destruct (truthy_string body); simpl; [|by intros [= <-] ?%elem_of_nil].
  destruct (JSON_parse body) as [v|e]; simpl.
  - destruct (is_undefined _).
    { destruct exclude; intros [= <-];
        [by intros ->%list_elem_of_singleton | by intros ?%elem_of_nil]. }
    destruct (String_ _) as [str|e]; [|done].
    destruct (if exclude then _ else _); intros [= <-];
      [by intros ->%list_elem_of_singleton | by intros ?%elem_of_nil].
  - destruct (truthy_string (err_message e)); simpl.
    { intros [= <-]. by intros ->%list_elem_of_singleton. }
    destruct (is_undefined _).
    { destruct exclude; intros [= <-];
        [by intros ->%list_elem_of_singleton | by intros ?%elem_of_nil]. }
    destruct (String_ _) as [str|e']; [|done].
    destruct (if exclude then _ else _); intros [= <-];
      [by intros ->%list_elem_of_singleton | by intros ?%elem_of_nil].
Qed.






Lemma elem_of_raws (out : list (@FilteredMessage V)) msg :
  msg ∈ raws out <-> exists fm, fm ∈ out /\ raw fm = msg.
Proof.
  unfold raws. rewrite list_elem_of_fmap. split.
  - intros (fm & -> & Hin). eauto.
  - intros (fm & Hin & <-). eauto.
Qed.

(** Membership of a message among the raw messages of a returned result is
    decided by its own iteration. *)
Lemma elem_of_raws_filter exclude messages out msg :
  filterByAttributePath messages path expected exclude = Return out ->
  msg ∈ messages ->
  msg ∈ raws out <->
    exists r fm, filter_one path expected exclude msg = Return r /\ fm ∈ r.
Proof.
  intros Hout Hin. rewrite elem_of_raws. split.
  - intros (fm & Hfm & Hraw).
    apply (filter_elem_of _ _ _ Hout) in Hfm as (m & r & Hm & Hr & Hfr).
    assert (m = msg) as -> by (rewrite <- Hraw; symmetry; eapply filter_one_raw; eauto).
    eauto.
  - intros (r & fm & Hr & Hfr). exists fm. split.
    + apply (filter_elem_of _ _ _ Hout). eauto.
    + eapply filter_one_raw; eauto.
Qed.


(** C10.  A message whose [Body] is absent or is the empty string is skipped:
    its iteration appends nothing, the call gives the same outcome as the call
    without the message, and no entry of the result (so no parse-error entry
    either) carries it. *)
Theorem filter_skips_empty_body (exclude : bool) (before after : list RawMessage)
    (msg : RawMessage) (Hbody : no_body msg) :
  filter_one path expected exclude msg = Return []
  /\ filterByAttributePath (before ++ msg :: after) path expected exclude
     = filterByAttributePath (before ++ after) path expected exclude
  /\ (forall out fm,
        filterByAttributePath (before ++ msg :: after) path expected exclude
        = Return out ->
        fm ∈ out -> raw fm <> msg).
Proof.
  pose proof (filter_one_no_body exclude msg Hbody) as Hone.
  split; [exact Hone|]. split.
  - rewrite !filter_app, filter_cons, Hone. simpl.
    destruct (filterByAttributePath before path expected exclude); [|done].
    by destruct (filterByAttributePath after path expected exclude).
  - intros out fm Hout Hfm Hraw.
    apply (filter_elem_of _ _ _ Hout) in Hfm as (m & r & Hm & Hr & Hfr).
    assert (m = msg) as -> by (rewrite <- Hraw; symmetry; eapply filter_one_raw; eauto).
    rewrite Hone in Hr. injection Hr as <-. by apply elem_of_nil in Hfr.
Qed.

End Facts.
End JsonFilterFacts.

Module MiniJsExamples.
Import MiniJs JsonFilter.

(** The bodies used below: [{"status":"error"}], [{"status":"ok"}],
    [{"a":{"b":1}}] and text that is not JSON. *)
Definition body_error : string := "{" +:+ quoted "status" +:+ ":" +:+ quoted "error" +:+ "}".
Definition body_ok : string := "{" +:+ quoted "status" +:+ ":" +:+ quoted "ok" +:+ "}".
Definition body_nested : string := "{" +:+ quoted "a" +:+ ":{" +:+ quoted "b" +:+ ":1}}".
Definition body_garbage : string := "not-valid-json".

Definition m1 := message "m1" body_error.
Definition m2 := message "m2" body_ok.
Definition m3 := message "m3" body_garbage.
Definition m4 := mkRawMessage (Some "m4") (Some "rh") None [].
Definition m5 := message "m5" EmptyString.

Example parse_nested :
  parse body_nested = Return (JObj [("a", JObj [("b", JNum 1)])]).
Proof. vm_compute. reflexivity. Qed.

(** The scenario of the specification: the match keeps the number 1. *)
Example filter_nested_number :
  filterByAttributePath [message "m" body_nested] "a.b" "1" false
  = Return [mkFiltered (message "m" body_nested)
              (JObj [("a", JObj [("b", JNum 1)])]) (JNum 1) None].
Proof. vm_compute. reflexivity. Qed.

Example filter_include :
  exists out, filterByAttributePath [m1; m2; m3; m4; m5] "status" "error" false
              = Return out /\ raws out = [m1; m3].
Proof. eexists. split; vm_compute; reflexivity. Qed.

Example filter_exclude :
  exists out, filterByAttributePath [m1; m2; m3; m4; m5] "status" "error" true
              = Return out /\ raws out = [m2; m3].
Proof. eexists. split; vm_compute; reflexivity. Qed.

Definition entry1 : FilteredMessage :=
  mkFiltered m1 (JObj [("status", JStr "error")]) (JStr "error") None.
Definition entry3 : FilteredMessage :=
  mkFiltered m3 JUndefined JUndefined (Some (err_message syntax_error)).

End MiniJsExamples.


(** The theorem of C10 for a message with an empty body between two others. *)
Lemma filter_skips_empty_body_witness :
  let before := [MiniJsExamples.m1] in
  let after := [MiniJsExamples.m2] in
  let msg := MiniJsExamples.m5 in
  JsonFilter.filter_one "status" "error" false msg = Return []
  /\ JsonFilter.filterByAttributePath (before ++ msg :: after) "status" "error" false
     = JsonFilter.filterByAttributePath (before ++ after) "status" "error" false
  /\ (forall out fm,
        JsonFilter.filterByAttributePath (before ++ msg :: after) "status" "error" false
        = Return out ->
        fm ∈ out -> JsonFilter.raw fm <> msg).
Proof.
  intros before after msg.
  apply (JsonFilterFacts.filter_skips_empty_body "status" "error" false before after msg).
  right. reflexivity.
Defined.

(** ** Properties of the device-authorization flow *)

Module SsoLoginFacts.
Import SsoLogin.

(** Unfolds the effect combinators in the goal. *)
Ltac unfold_js :=
  unfold bind, ret, throw, try_catch, send, setSsoSession, getSsoSession,
    set_registeredClient in *; simpl in *.

Section Facts.
Context {P : Type} `{Aws.AwsProvider P}.


(** What a call can do: with a cached client it is a hit; otherwise it sends
    one [RegisterClient] request for [region], and caches exactly when it
    returns. *)
Lemma getRegisteredClient_cases region (st : AppState P) r st' :
  getRegisteredClient region st = (r, st') ->
  store st' = store st /\ dynamicEnvs st' = dynamicEnvs st
  /\ ((exists c, registeredClient st = Some c /\ r = Return c /\ st' = st)
      \/ (registeredClient st = None
          /\ calls st' = calls st
               ++ [Aws.RegisterClientCommand region "sqs-dlq-redrive-webapp" "public"]
          /\ match r with
             | Return c => registeredClient st' = Some c
             | Throw _ => registeredClient st' = None
             end)).
Proof.
  unfold getRegisteredClient.
  destruct (registeredClient st) as [c|] eqn:Hc.
  - intros [= <- <-]. split_and!; [done..|]. left. eauto.
  - unfold_js.
    destruct (Aws.registerClient _ _ _ (aws st)) as [[res|e] p'] eqn:Hreg.
    + destruct (Aws.rcr_clientId res) as [cid|], (Aws.rcr_clientSecret res) as [cs|];
        try (intros [= <- <-]; simpl; split_and!; [done..|]; right; by rewrite ?Hc).
      destruct (truthy_string cid && truthy_string cs);
        intros [= <- <-]; simpl; split_and!; try done; right; by rewrite ?Hc.
    + intros [= <- <-]; simpl. split_and!; [done..|]. right. by rewrite Hc.
Qed.

Lemma getRegisteredClient_store region (st : AppState P) r st' :
  getRegisteredClient region st = (r, st') -> store st' = store st.
Proof. intros Hg. by apply getRegisteredClient_cases in Hg as (? & _). Qed.

Lemma getRegisteredClient_returns region (st : AppState P) c st' :
  getRegisteredClient region st = (Return c, st') -> registeredClient st' = Some c.
Proof.
  intros Hg. apply getRegisteredClient_cases in Hg as (_ & _ & [Hhit | Hmiss]).
  - destruct Hhit as (c' & Hc & [= ->] & ->). done.
  - by destruct Hmiss as (_ & _ & ?).
Qed.

(** C5.  When the profile is known, the registered client is obtained, and the
    token request throws an authorization-pending error, [pollForLogin]
    returns exactly [{success: false, pending: true}]; the session store (and
    the environment registry) is as before the call, the only request after
    the client lookup being the token request. *)
Theorem pollForLogin_pending_no_write
    (profiles : list SsoProfile) (now : Z) (profileName deviceCode sessionId : string)
    (st st1 : AppState P) (profile : SsoProfile) (c : RegisteredClient)
    (err : JsError) (p2 : P)
    (Hprofile : List.find (fun p => String.eqb (name p) profileName) profiles
                = Some profile)
    (Hclient : getRegisteredClient (ssoRegion profile) st = (Return c, st1))
    (Htoken : Aws.createToken (ssoRegion profile) (clientId c) (clientSecret c)
                deviceCode grant_type (aws st1) = (Throw err, p2))
    (Hpending : is_authorization_pending err = true) :
  exists st',
    pollForLogin profiles now profileName deviceCode sessionId st
    = (Return (mkPollLoginResult false (Some true)), st')
    /\ store st' = store st
    /\ dynamicEnvs st' = dynamicEnvs st
    /\ aws st' = p2
    /\ calls st' = calls st1
         ++ [Aws.CreateTokenCommand (ssoRegion profile) (clientId c) (clientSecret c)
               deviceCode grant_type].
Proof.
  pose proof (getRegisteredClient_cases _ _ _ _ Hclient) as (Hstore & Henvs & _).
  eexists. unfold pollForLogin. rewrite Hprofile.
  unfold bind at 1. rewrite Hclient.
  unfold bind at 1, try_catch, bind at 1, send, ret.
  rewrite Htoken. simpl. rewrite Hpending. simpl.
  split_and!; done.
Qed.


End Facts.
End SsoLoginFacts.

(** ** Properties of deduplicated retrieval *)

Module ReceiveFacts.
Import SqsService.

(** The set of seen ids is the set of keys of the collected messages, and no
    key occurs twice. *)
Definition dedup_inv (seen : gset string) (messages : list RawMessage) : Prop :=
  NoDup (keys messages) /\ forall k, k ∈ seen <-> k ∈ keys messages.

Lemma dedup_inv_empty : dedup_inv ∅ [].
Proof.
  split; [constructor|]. intros k. unfold keys; simpl. set_solver.
Qed.

Lemma dedup_batch_spec batch : forall seen messages n seen' messages' n',
  dedup_batch batch seen messages n = (seen', messages', n') ->
  dedup_inv seen messages ->
  dedup_inv seen' messages'
  /\ exists added, messages' = messages ++ added
                   /\ n' = n + Z.of_nat (length added)
                   /\ (length added <= length batch)%nat.
Proof.
  induction batch as [|msg rest IH]; intros seen messages n seen' messages' n'; simpl.
  - intros [= <- <- <-] Hinv. split; [done|]. exists []. rewrite app_nil_r.
    split_and!; [done | simpl; lia | done].
  - case_bool_decide as Hseen; intros Hd Hinv.
    + destruct (IH _ _ _ _ _ _ Hd Hinv) as (Hinv' & added & -> & -> & Hlen).
      split; [done|]. exists added. split_and!; [done | done | lia].
    + assert (dedup_inv ({[dedup_key msg]} ∪ seen) (messages ++ [msg])) as Hinv1.
      { destruct Hinv as [Hnd Hseen_iff]. unfold dedup_inv, keys in *. split.
        - rewrite fmap_app. apply NoDup_app. split; [done|]. split.
          + intros k Hk ->%list_elem_of_singleton.
            apply Hseen. by apply Hseen_iff.
          + simpl. apply NoDup_singleton.
        - intros k. rewrite fmap_app, elem_of_app, elem_of_union, elem_of_singleton.
          simpl. rewrite list_elem_of_singleton, Hseen_iff. tauto. }
      destruct (IH _ _ _ _ _ _ Hd Hinv1) as (Hinv' & added & -> & -> & Hlen).
      split; [done|]. exists (msg :: added). rewrite <- app_assoc. simpl.
      split_and!; [done | lia | lia].
Qed.

Lemma send_eq {P A} (call : Aws.Call) (op : P -> Outcome A * P) (st : AppState P) :
  send call op st
  = (fst (op (aws st)),
     mkAppState (store st) (dynamicEnvs st) (registeredClient st)
       (snd (op (aws st))) (calls st ++ [call])).
Proof. unfold send. by destruct (op (aws st)). Qed.

Section Facts.
Context {P : Type} `{Aws.AwsProvider P}.

(** The loop, for any fuel that covers the messages still wanted: it ends,
    it sends only receive requests and at most one per message still wanted,
    it touches no module state, and what it returns extends [messages]
    without repeating a key; with a provider that honours the batch limit the
    result stays within [maxMessages]. *)
Lemma receive_loop_spec client queueUrl options maxMessages :
  forall fuel seen messages (st : AppState P),
    dedup_inv seen messages ->
    (Z.to_nat (maxMessages - Z.of_nat (length messages)) <= fuel)%nat ->
    exists r st' new,
      receive_loop fuel client queueUrl options maxMessages seen messages st
      = Some (r, st')
      /\ calls st' = calls st ++ new
      /\ Forall is_receive new
      /\ (length new <= Z.to_nat (maxMessages - Z.of_nat (length messages)))%nat
      /\ store st' = store st
      /\ forall result, r = Return result ->
           NoDup (keys result)
           /\ (exists more, result = messages ++ more)
           /\ (honours_limit -> Z.of_nat (length messages) <= maxMessages ->
               Z.of_nat (length result) <= maxMessages).
Proof.
  assert (Hexit : forall seen messages (st : AppState P),
             dedup_inv seen messages ->
             exists r st' new,
               Some (Return messages, st) = Some (r, st')
               /\ calls st' = calls st ++ new
               /\ Forall is_receive new
               /\ (length new <= Z.to_nat (maxMessages - Z.of_nat (length messages)))%nat
               /\ store st' = store st
               /\ forall result, r = Return result ->
                    NoDup (keys result)
                    /\ (exists more, result = messages ++ more)
                    /\ (honours_limit -> Z.of_nat (length messages) <= maxMessages ->
                        Z.of_nat (length result) <= maxMessages)).
  { intros seen messages st Hinv. exists (Return messages), st, [].
    rewrite app_nil_r. split_and!; [done | done | constructor | simpl; lia | done |].
    intros result [= <-].
    split_and!; [apply Hinv | by exists []; rewrite app_nil_r | done]. }
  induction fuel as [|fuel IH]; intros seen messages st Hinv Hfuel.
  - simpl. destruct (Z.ltb_spec (Z.of_nat (length messages)) maxMessages); [lia|].
    by eapply Hexit.
  - simpl. destruct (Z.ltb_spec (Z.of_nat (length messages)) maxMessages) as [Hlt|Hge];
      [|by eapply Hexit].
    rewrite send_eq.
    set (input := Aws.mkReceiveMessageRequest _ _ _ _ _ _).
    set (call := Aws.ReceiveMessageCommand client input).
    assert (Forall is_receive [call]) as Hcall by (by repeat constructor).
    destruct (Aws.receiveMessage client input (aws st)) as [[res|e] p'] eqn:Hrecv; simpl.
    2:{ eexists _, _, [call]. split; [done|].
        split_and!; [done | done | simpl; lia | done | done]. }
    destruct (Nat.eqb_spec (length (default [] res)) 0) as [Hempty|Hnonempty].
    { eexists _, _, [call]. split; [done|].
      split_and!; [done | done | simpl; lia | done |].
      intros result [= <-].
      split_and!; [apply Hinv | by exists []; rewrite app_nil_r | lia]. }
    destruct (dedup_batch (default [] res) seen messages 0)
      as [[seen' messages'] newInBatch] eqn:Hd.
    destruct (dedup_batch_spec _ _ _ _ _ _ _ Hd Hinv)
      as (Hinv' & added & -> & -> & Hadded).
    destruct (Z.eqb_spec (0 + Z.of_nat (length added)) 0) as [Hnone|Hsome].
    { eexists _, _, [call]. split; [done|].
      split_and!; [done | done | simpl; lia | done |].
      intros result [= <-].
      split_and!; [apply Hinv' | by exists added |].
      intros _ _. rewrite length_app. lia. }
    set (st1 := mkAppState _ _ _ _ _).
    destruct (IH seen' (messages ++ added) st1 Hinv') as
      (r & st' & new & Hloop & Hcalls & Hnew & Hcount & Hstore & Hres).
    { rewrite length_app. lia. }
    exists r, st', (call :: new).
    split; [done|]. rewrite length_app in Hcount. split_and!.
    + rewrite Hcalls. subst st1; simpl. by rewrite <- app_assoc.
    + constructor; [exact I | done].
    + simpl. lia.
    + by rewrite Hstore.
    + intros result Hr. destruct (Hres result Hr) as (Hnd & [more ->] & Hlen).
      split_and!; [done | exists (added ++ more); by rewrite app_assoc |].
      intros Hhon Hle. apply Hlen; [done|].
      rewrite length_app.
      assert (length (default [] res) <= Z.to_nat (Aws.rm_MaxNumberOfMessages input))%nat
        as Hbatch.
      { destruct res as [batch|]; [by eapply Hhon | simpl; lia]. }
      subst input; simpl in Hbatch. lia.
Qed.

Lemma receiveDeduplicated_spec client queueUrl options (st : AppState P) :
  exists r st' new,
    receiveDeduplicated client queueUrl options st = Some (r, st')
    /\ calls st' = calls st ++ new
    /\ Forall is_receive new
    /\ Z.of_nat (length new) <= clamp (maxMessages options)
    /\ store st' = store st
    /\ forall result, r = Return result ->
         NoDup (keys result)
         /\ (honours_limit ->
             Z.of_nat (length result) <= clamp (maxMessages options)).
Proof.
  unfold receiveDeduplicated.
  assert (1 <= clamp (maxMessages options)) as Hclamp by (unfold clamp; lia).
  destruct (receive_loop_spec client queueUrl options (clamp (maxMessages options))
              (Z.to_nat (clamp (maxMessages options))) ∅ [] st dedup_inv_empty)
    as (r & st' & new & Hloop & Hcalls & Hnew & Hcount & Hstore & Hres).
  { simpl. lia. }
  exists r, st', new. simpl in Hcount.
  split_and!; [done | done | done | lia | done |].
  intros result Hr. destruct (Hres result Hr) as (Hnd & _ & Hlen).
  split; [done|]. intros Hhon. apply Hlen; [done | simpl; lia].
Qed.

End Facts.
End ReceiveFacts.

Module ReceiveTheorems.
Import SqsService ReceiveFacts.

Lemma clamp_range maxMessages : 1 <= clamp maxMessages <= 5000.
Proof. unfold clamp. lia. Qed.

(** Among messages with pairwise different keys at most one has no id. *)
Lemma nodup_keys_id_less (l : list RawMessage) :
  NoDup (keys l) -> (length (filter id_less l) <= 1)%nat.
Proof.
  unfold keys. induction l as [|m l IH]; simpl; [lia|].
  intros [Hnotin Hnd]%NoDup_cons. rewrite filter_cons.
  destruct (decide (id_less m)) as [Hm|Hm]; [|by apply IH].
  destruct (filter id_less l) as [|m' l'] eqn:Hf; simpl; [lia|].
  exfalso. apply Hnotin.
  assert (m' ∈ filter id_less l) as [Hm' Hin]%list_elem_of_filter
    by (rewrite Hf; apply list_elem_of_here).
  apply list_elem_of_fmap. exists m'. split; [|done].
  unfold dedup_key, id_less in *. by rewrite Hm, Hm'.
Qed.

Lemma nodup_keys_ids (l : list RawMessage) :
  NoDup (keys l) -> NoDup (MessageId <$> l).
Proof.
  unfold keys, dedup_key. intros Hnd.
  apply (NoDup_fmap_1 (default EmptyString)).
  by rewrite <- list_fmap_compose.
Qed.

Section Theorems.
Context {P : Type} `{Aws.AwsProvider P}.

(** C3 as the source has it.  Every call ends; a returned list holds no two
    entries with the same message id (nor with the same deduplication key);
    and against a provider that answers a receive request with at most
    [MaxNumberOfMessages] messages its length is at most the clamp of
    [maxMessages] into [1, 5000]. *)
Theorem receiveDeduplicated_nodup_bounded
    (client : Aws.SQSClient) (queueUrl : string) (options : PreviewOptions)
    (st : AppState P) :
  exists r st',
    receiveDeduplicated client queueUrl options st = Some (r, st')
    /\ forall result, r = Return result ->
         NoDup (keys result)
         /\ NoDup (MessageId <$> result)
         /\ (honours_limit ->
             Z.of_nat (length result) <= clamp (maxMessages options))
         /\ 1 <= clamp (maxMessages options) <= 5000.
Proof.
  destruct (receiveDeduplicated_spec client queueUrl options st)
    as (r & st' & new & Hrun & _ & _ & _ & _ & Hres).
  exists r, st'. split; [done|]. intros result Hr.
  destruct (Hres result Hr) as [Hnd Hlen].
  split_and!; [done | by apply nodup_keys_ids | done | apply clamp_range..].
Qed.


(** C9.  Messages without a [MessageId] share one key, the empty string: a
    returned list holds at most one of them; an id-less message met when the
    empty string has been seen is dropped without being counted as new, and
    the first one met marks the empty string as seen. *)
Theorem receiveDeduplicated_one_id_less
    (client : Aws.SQSClient) (queueUrl : string) (options : PreviewOptions)
    (st : AppState P) :
  (exists r st',
     receiveDeduplicated client queueUrl options st = Some (r, st')
     /\ forall result, r = Return result ->
          (length (filter id_less result) <= 1)%nat)
  /\ (forall msg, id_less msg -> dedup_key msg = EmptyString)
  /\ (forall msg rest seen messages n,
        id_less msg -> EmptyString ∈ seen ->
        dedup_batch (msg :: rest) seen messages n
        = dedup_batch rest seen messages n)
  /\ (forall msg rest seen messages n,
        id_less msg -> EmptyString ∉ seen ->
        dedup_batch (msg :: rest) seen messages n
        = dedup_batch rest ({[EmptyString]} ∪ seen) (messages ++ [msg]) (n + 1)).
Proof.
  assert (Hkey : forall msg, id_less msg -> dedup_key msg = EmptyString).
  { intros msg Hm. unfold dedup_key, id_less in *. by rewrite Hm. }
  split_and!.
  - destruct (receiveDeduplicated_spec client queueUrl options st)
      as (r & st' & new & Hrun & _ & _ & _ & _ & Hres).
    exists r, st'. split; [done|]. intros result Hr.
    apply nodup_keys_id_less. by apply Hres.
  - exact Hkey.
  - intros msg rest seen messages n Hm Hseen. simpl. rewrite (Hkey msg Hm).
    by rewrite bool_decide_eq_true_2.
  - intros msg rest seen messages n Hm Hseen. simpl. rewrite (Hkey msg Hm).
    by rewrite bool_decide_eq_false_2.
Qed.

End Theorems.
End ReceiveTheorems.

(** ** Runs of deduplicated retrieval against the mock providers *)

Module ReceiveExamples.
Import SqsService MockAws.

Definition client : Aws.SQSClient :=
  Aws.mkSQSClient "eu-west-1" "AKIA-FAKE" "secret-fake" (Some "session-fake").

Definition queue : string := "https://sqs.eu-west-1.amazonaws.com/111/dlq".

Definition msg (id : string) : RawMessage :=
  mkRawMessage (Some id) (Some ("rh-" +:+ id)) (Some "{}") [].

(** A message without a [MessageId]. *)
Definition anonymous (receipt : string) : RawMessage :=
  mkRawMessage None (Some receipt) (Some "{}") [].

Definition options (n : Z) : PreviewOptions := mkPreviewOptions n None None.

Definition receiving (answers : list (Outcome (option (list RawMessage)))) : Script :=
  mkScript [] [] [] [] answers [] [].


Definition two_at_once : Script :=
  receiving [Return (Some [msg "a"; msg "b"])].

(** The redelivery scenario of the specification. *)
Example redelivery_stops :
  fst <$> receiveDeduplicated client queue (options 3)
            (initial (receiving [Return (Some [msg "a"]); Return (Some [msg "a"])]))
  = Some (Return [msg "a"]).
Proof. vm_compute. reflexivity. Qed.

Lemma capped_honours_limit : honours_limit (P := Capped).
Proof.
  intros c input p batch p'. simpl.
  destruct (next _) as [a q]. destruct a as [[b|]|e]; simpl; intros [= <- <-].
  rewrite length_take. lia.
Qed.

End ReceiveExamples.

(** C3 as stated fails: asked for one message, a provider that answers with
    two makes the call return two, above the clamp of [maxMessages = 1]. *)
Lemma receiveDeduplicated_exceeds_clamp :
  (fst <$> SqsService.receiveDeduplicated ReceiveExamples.client ReceiveExamples.queue
             (ReceiveExamples.options 1) (MockAws.initial ReceiveExamples.two_at_once)
   = Some (Return [ReceiveExamples.msg "a"; ReceiveExamples.msg "b"]))
  /\ SqsService.clamp 1 = 1
  /\ ~ (Z.of_nat (length [ReceiveExamples.msg "a"; ReceiveExamples.msg "b"])
        <= SqsService.clamp 1).
Proof. split_and!; [vm_compute; reflexivity | reflexivity | vm_compute; congruence]. Qed.


(** The theorem of C3 against the provider that keeps to the batch limit: it
    has two messages queued and is asked for one. *)
Lemma receiveDeduplicated_nodup_bounded_witness :
  exists result st',
    SqsService.receiveDeduplicated ReceiveExamples.client ReceiveExamples.queue
      (ReceiveExamples.options 1)
      (MockAws.initial (MockAws.mkCapped ReceiveExamples.two_at_once))
    = Some (Return result, st')
    /\ NoDup (SqsService.keys result)
    /\ NoDup (MessageId <$> result)
    /\ Z.of_nat (length result) <= SqsService.clamp 1.
Proof.
  destruct (ReceiveTheorems.receiveDeduplicated_nodup_bounded
              ReceiveExamples.client ReceiveExamples.queue (ReceiveExamples.options 1)
              (MockAws.initial (MockAws.mkCapped ReceiveExamples.two_at_once)))
    as (r & st' & Hrun & Hres).
  vm_compute in Hrun. injection Hrun as <- <-.
  eexists _, _. split; [vm_compute; reflexivity|].
  destruct (Hres _ eq_refl) as (Hkeys & Hids & Hlen & _).
  split_and!; [exact Hkeys | exact Hids |].
  apply Hlen. exact ReceiveExamples.capped_honours_limit.
Defined.

(** The theorem of C9: a second message without id is dropped. *)
Lemma receiveDeduplicated_one_id_less_witness :
  SqsService.dedup_batch
    [ReceiveExamples.anonymous "rh-2"] {[EmptyString]} [ReceiveExamples.anonymous "rh-1"] 1
  = SqsService.dedup_batch [] {[EmptyString]} [ReceiveExamples.anonymous "rh-1"] 1.
Proof.
  destruct (ReceiveTheorems.receiveDeduplicated_one_id_less
              ReceiveExamples.client ReceiveExamples.queue (ReceiveExamples.options 3)
              (MockAws.initial MockAws.empty_script)) as (_ & _ & Hdrop & _).
  apply Hdrop; [reflexivity | set_solver].
Defined.

(** ** Properties of batched redrive *)

Module RedriveFacts.
Import SqsService.

Lemma filter_indexed_length {A} (keep : nat -> A -> bool) (l : list A) :
  forall idx, (length (filter_indexed keep idx l) <= length l)%nat.
Proof.
  induction l as [|x l IH]; intros idx; simpl; [lia|].
  destruct (keep idx x); simpl; specialize (IH (S idx)); lia.
Qed.

Lemma slice_length {A} (l : list A) (i : nat) :
  length (slice l i (i + 10)) = Nat.min 10 (length l - i).
Proof.
  unfold slice. rewrite length_take, length_drop.
  replace (i + 10 - i)%nat with 10%nat by lia. done.
Qed.

(** The counters that a batch or a run adds to [acc]. *)
Definition advances (deleteAfterSend : bool) (n : nat)
    (acc acc' : RedriveResultSummary) : Prop :=
  sent acc' + sendFailed acc' = sent acc + sendFailed acc + Z.of_nat n
  /\ sent acc <= sent acc'
  /\ sendFailed acc <= sendFailed acc'
  /\ (deleted acc' + deleteFailed acc') - (deleted acc + deleteFailed acc)
     = (if deleteAfterSend then sent acc' - sent acc else 0)
  /\ (deleteAfterSend = false ->
      deleted acc' = deleted acc /\ deleteFailed acc' = deleteFailed acc).

Section Facts.
Context {P : Type} `{Aws.AwsProvider P}.

Lemma redrive_batch_spec client dlqUrl targetUrl messages deleteAfterSend i acc
    (st : AppState P) acc' st' :
  redrive_batch client dlqUrl targetUrl messages deleteAfterSend i acc st
  = (Return acc', st') ->
  advances deleteAfterSend (length (slice messages i (i + 10))) acc acc'.
Proof.
  unfold redrive_batch, bind at 1. rewrite ReceiveFacts.send_eq.
  set (batch := slice messages i (i + 10)).
  destruct (Aws.sendMessageBatch _ _ _ (aws st)) as [[failed|e] p1]; simpl; [|done].
  set (successfulBatch := filter_indexed _ 0%nat batch).
  pose proof (filter_indexed_length
                (fun idx m => negb (bool_decide
                   (Some (entry_id (i + idx) m)
                    ∈ (list_to_set (Aws.bre_Id <$> default [] failed)
                       : gset (option string))))) batch 0%nat) as Hle.
  fold successfulBatch in Hle.
  destruct deleteAfterSend; simpl.
  - destruct (Nat.ltb_spec 0 (length successfulBatch)) as [Hpos|Hzero].
    + unfold bind. rewrite ReceiveFacts.send_eq.
      destruct (Aws.deleteMessageBatch _ _ _ _) as [[dfailed|e] p2]; simpl; [|done].
      intros [= <- <-]. unfold advances; simpl.
      split_and!; first [lia | done | intros; split; lia].
    + intros [= <- <-]. unfold advances; simpl.
      split_and!; first [lia | done | intros; split; lia].
  - intros [= <- <-]. unfold advances; simpl.
      split_and!; first [lia | done | intros; split; lia].
Qed.

Lemma advances_trans deleteAfterSend n m acc1 acc2 acc3 :
  advances deleteAfterSend n acc1 acc2 ->
  advances deleteAfterSend m acc2 acc3 ->
  advances deleteAfterSend (n + m) acc1 acc3.
Proof.
  unfold advances. intros (? & ? & ? & ? & Hk1) (? & ? & ? & ? & Hk2).
  split_and!; try lia.
  - destruct deleteAfterSend; lia.
  - intros Hd. destruct (Hk1 Hd), (Hk2 Hd). split; congruence.
Qed.

Lemma advances_refl deleteAfterSend acc : advances deleteAfterSend 0 acc acc.
Proof.
  unfold advances. split_and!; first [lia | done | by destruct deleteAfterSend; lia].
Qed.

(** The loop from index [i], for any fuel that covers the batches left: it
    ends, and a returned summary accounts for every message from [i] on. *)
Lemma redrive_loop_spec client dlqUrl targetUrl messages deleteAfterSend :
  forall fuel i acc (st : AppState P),
    (length messages - i <= fuel * 10)%nat ->
    exists r st',
      redrive_loop fuel client dlqUrl targetUrl messages deleteAfterSend i acc st
      = Some (r, st')
      /\ forall summary, r = Return summary ->
           advances deleteAfterSend (length messages - i) acc summary.
Proof.
  induction fuel as [|fuel IH]; intros i acc st Hfuel; simpl.
  - destruct (Nat.ltb_spec i (length messages)); [lia|].
    eexists _, _. split; [done|]. intros summary [= <-].
    replace (length messages - i)%nat with 0%nat by lia. apply advances_refl.
  - destruct (Nat.ltb_spec i (length messages)) as [Hlt|Hge].
    2:{ eexists _, _. split; [done|]. intros summary [= <-].
        replace (length messages - i)%nat with 0%nat by lia. apply advances_refl. }
    destruct (redrive_batch _ _ _ _ _ i acc st) as [[acc'|e] st1] eqn:Hbatch.
    2:{ eexists _, _. split; [done|]. by intros summary [=]. }
    apply redrive_batch_spec in Hbatch. rewrite slice_length in Hbatch.
    destruct (IH (i + 10)%nat acc' st1) as (r & st' & Hloop & Hres); [lia|].
    exists r, st'. split; [done|]. intros summary Hr.
    replace (length messages - i)%nat
      with (Nat.min 10 (length messages - i) + (length messages - (i + 10)))%nat by lia.
    eapply advances_trans; [exact Hbatch | by apply Hres].
Qed.

(** C1.  Every call of [redriveMessages] ends, and a returned summary
    satisfies [sent + sendFailed = messages.length],
    [deleted + deleteFailed <= sent] (with equality when [deleteAfterSend]),
    and [deleted = 0], [deleteFailed = 0] when [deleteAfterSend] is false,
    whatever the provider lists as failed. *)
Theorem redrive_summary_invariant
    (now : Z) (envId region sessionId dlqUrl targetUrl : string)
    (messages : list RedriveInputMessage) (deleteAfterSend : bool)
    (st : AppState P) :
  exists r st',
    redriveMessages now envId region sessionId dlqUrl targetUrl messages
      deleteAfterSend st = Some (r, st')
    /\ forall summary, r = Return summary ->
         sent summary + sendFailed summary = Z.of_nat (length messages)
         /\ deleted summary + deleteFailed summary <= sent summary
         /\ (deleteAfterSend = true ->
             deleted summary + deleteFailed summary = sent summary)
         /\ (deleteAfterSend = false ->
             deleted summary = 0 /\ deleteFailed summary = 0)
         /\ 0 <= sent summary /\ 0 <= sendFailed summary.
Proof.
  unfold redriveMessages.
  destruct (createSqsClient now envId region sessionId st) as [[client|e] st0].
  2:{ eexists _, _. split; [done|]. by intros summary [=]. }
  destruct (redrive_loop_spec client dlqUrl targetUrl messages deleteAfterSend
              (length messages) 0%nat (mkSummary 0 0 0 0) st0)
    as (r & st' & Hloop & Hres); [lia|].
  exists r, st'. split; [done|]. intros summary Hr.
  destruct (Hres summary Hr) as (Hsum & Hsent & Hfailed & Hdel & Hkeep).
  simpl in *. rewrite Nat.sub_0_r in Hsum.
  split_and!.
  - lia.
  - destruct deleteAfterSend; lia.
  - intros ->. lia.
  - intros Hd. destruct (Hkeep Hd). lia.
  - lia.
  - lia.
Qed.

End Facts.
End RedriveFacts.

(** ** The composite entry ids of redrive *)

Module EntryIdFacts.
Import SqsService.

(** No character of the string is a dash. *)
Fixpoint no_dash (s : string) : Prop :=
  match s with
  | EmptyString => True
  | String c r => c <> "-"%char /\ no_dash r
  end.

Lemma pretty_N_char_no_dash x : pretty_N_char x <> "-"%char.
Proof. unfold pretty_N_char. by repeat case_match. Qed.

Lemma pretty_N_go_no_dash x : forall s, no_dash s -> no_dash (pretty_N_go x s).
Proof.
  induction (N.lt_wf_0 x) as [x _ IH]; intros s Hs.
  destruct (decide (x = 0)%N) as [->|Hx]; [by rewrite pretty_N_go_0|].
  rewrite pretty_N_go_step by lia.
  apply IH; [apply N.div_lt; lia|]. simpl. split; [apply pretty_N_char_no_dash | done].
Qed.

(** The decimal rendering of an index has no dash. *)
Lemma pretty_nat_no_dash (n : nat) : no_dash (pretty n).
Proof.
  unfold pretty, pretty_nat, pretty, pretty_N.
  case_decide; [simpl; split; [discriminate | done]|].
  by apply pretty_N_go_no_dash.
Qed.

(** The text before the first dash is determined. *)
Lemma dash_split a : forall b x y,
  no_dash a -> no_dash b ->
  a +:+ String "-" x = b +:+ String "-" y -> a = b /\ x = y.
Proof.
  induction a as [|c a IH]; intros [|d b] x y Ha Hb; simpl.
  - by intros [= ->].
  - intros [= <- _]. by destruct Hb.
  - intros [= -> _]. by destruct Ha.
  - intros [= -> Heq]. destruct Ha as [_ Ha], Hb as [_ Hb].
    destruct (IH b x y Ha Hb Heq) as [-> ->]. done.
Qed.

(** Entry ids built from different indices differ, whatever the message
    ids: within one request and across the requests of a call. *)
Lemma entry_id_inj i m j m' :
  entry_id i m = entry_id j m' -> i = j /\ messageId m = messageId m'.
Proof.
  unfold entry_id. intros Heq.
  apply dash_split in Heq as [Hi Hm]; [|apply pretty_nat_no_dash..].
  split; [by apply (inj pretty) | done].
Qed.

(** The send request of the batch that starts at [i] labels the message at
    index [i + k] of the input with [entry_id (i + k)]. *)
Lemma send_entry_lookup (messages : list RedriveInputMessage) i k m :
  (k < 10)%nat ->
  messages !! (i + k)%nat = Some m ->
  imap (fun idx m => Aws.mkSendEntry (entry_id (i + idx) m) (body m)
                       (messageAttributes m))
       (slice messages i (i + 10)) !! k
  = Some (Aws.mkSendEntry (entry_id (i + k) m) (body m) (messageAttributes m)).
Proof.
  intros Hk Hm. rewrite list_lookup_imap. unfold slice.
  replace (i + 10 - i)%nat with 10%nat by lia.
  rewrite lookup_take_lt by done. rewrite lookup_drop, Hm. done.
Qed.

End EntryIdFacts.

(** ** Runs of the device-authorization flow and of redrive against the mock
    provider *)

Module FlowExamples.
Import MockAws.

Definition PROFILE : SsoLogin.SsoProfile :=
  SsoLogin.mkSsoProfile "dev" "dev" None "https://portal.awsapps.com/start"
    "eu-west-1" "111111111111" "Admin" "my-sso".

Definition pending_err : JsError :=
  mkJsError (Some "AuthorizationPendingException") "Authorization pending" None.

Definition registration (cid csecret : string) : Outcome Aws.RegisterClientResponse :=
  Return (Aws.mkRegisterClientResponse (Some cid) (Some csecret)).

Definition old_session : SessionStore.ConnectedSsoSession :=
  SessionStore.mkSession "my-sso" "eu-west-1" "old-token" (Some 99).

(** One registration answer queued, then a pending token answer; a session
    from an earlier login is in the store. *)
Definition login_state : AppState Script :=
  mkAppState {["sess-1" := old_session]} ∅ None
    (mkScript [registration "cid-123" "csecret-456"] [] [Throw pending_err] [] [] [] [])
    [].




(** *** Redrive *)

Definition dlq : string := "https://sqs/dlq".
Definition target : string := "https://sqs/target".

Definition input (n : string) : SqsService.RedriveInputMessage :=
  SqsService.mkRedriveInputMessage ("m" +:+ n) ("rh" +:+ n) "{}" None.

Definition env1 : EnvironmentConfig :=
  mkEnvironmentConfig "env-1" "Dev (Admin)" ["eu-west-1"]
    (Some "111111111111") (Some "AdminRole").

Definition session1 : SessionStore.ConnectedSsoSession :=
  SessionStore.mkSession "my-sso" "eu-west-1" "token-abc" (Some 3600000).

Definition credentials : Outcome (option Aws.RoleCredentials) :=
  Return (Some (Aws.mkRoleCredentials (Some "AKIA-FAKE") (Some "secret-fake")
                  (Some "session-fake"))).

Definition failed (id : string) : Aws.BatchResultErrorEntry :=
  Aws.mkBatchResultErrorEntry (Some id) (Some "InternalError").

(** The scenario of the specification: three messages, the send of the
    second one fails, every delete succeeds. *)
Definition redrive_state : AppState Script :=
  mkAppState {["sess-1" := session1]} {["sess-1" := [env1]]} None
    (mkScript [] [] [] [credentials] []
       [Return (Some [failed "1-m1"])] [Return (Some [])])
    [].

Definition sqs : Aws.SQSClient :=
  Aws.mkSQSClient "eu-west-1" "AKIA-FAKE" "secret-fake" (Some "session-fake").

Example redrive_scenario :
  fst <$> SqsService.redriveMessages 1000 "env-1" "eu-west-1" "sess-1" dlq target
            [input "0"; input "1"; input "2"] true redrive_state
  = Some (Return (SqsService.mkSummary 2 1 2 0)).
Proof. vm_compute. reflexivity. Qed.

End FlowExamples.

(** The theorem of C5 on the pending scenario of the test suite, with a
    session of an earlier login in the store. *)
Lemma pollForLogin_pending_no_write_witness :
  let st1 := snd (SsoLogin.getRegisteredClient "eu-west-1" FlowExamples.login_state) in
  exists st',
    SsoLogin.pollForLogin [FlowExamples.PROFILE] 1000 "dev" "device-code" "sess-1"
      FlowExamples.login_state
    = (Return (SsoLogin.mkPollLoginResult false (Some true)), st')
    /\ store st' = store FlowExamples.login_state
    /\ dynamicEnvs st' = dynamicEnvs FlowExamples.login_state
    /\ aws st' = MockAws.empty_script
    /\ calls st' = calls st1
         ++ [Aws.CreateTokenCommand "eu-west-1" "cid-123" "csecret-456" "device-code"
               SsoLogin.grant_type].
Proof.
  intros st1.
  apply (SsoLoginFacts.pollForLogin_pending_no_write
           [FlowExamples.PROFILE] 1000 "dev" "device-code" "sess-1"
           FlowExamples.login_state st1 FlowExamples.PROFILE
           (mkRegisteredClient "cid-123" "csecret-456")
           FlowExamples.pending_err MockAws.empty_script).
  - reflexivity.
  - vm_compute. reflexivity.
  - vm_compute. reflexivity.
  - reflexivity.
Defined.



(** The theorem of C1 on the scenario of the specification. *)
Lemma redrive_summary_invariant_witness :
  exists summary st',
    SqsService.redriveMessages 1000 "env-1" "eu-west-1" "sess-1"
      FlowExamples.dlq FlowExamples.target
      [FlowExamples.input "0"; FlowExamples.input "1"; FlowExamples.input "2"]
      true FlowExamples.redrive_state
    = Some (Return summary, st')
    /\ SqsService.sent summary + SqsService.sendFailed summary = 3
    /\ SqsService.deleted summary + SqsService.deleteFailed summary
       <= SqsService.sent summary.
Proof.
  destruct (RedriveFacts.redrive_summary_invariant 1000 "env-1" "eu-west-1" "sess-1"
              FlowExamples.dlq FlowExamples.target
              [FlowExamples.input "0"; FlowExamples.input "1"; FlowExamples.input "2"]
              true FlowExamples.redrive_state)
    as (r & st' & Hrun & Hres).
  vm_compute in Hrun. injection Hrun as <- <-.
  eexists _, _. split; [vm_compute; reflexivity|].
  destruct (Hres _ eq_refl) as (Hsum & Hle & _). split; [exact Hsum | exact Hle].
Defined.

(** C6 on the scenario of the specification (three messages, the send of the
    second fails, delete after send).  The send request carries the ids
    ["0-m0"], ["1-m1"], ["2-m2"]; the delete request names the third message
    ["1-m2"], by its position among the successfully sent ones, although its
    index in the input is 2. *)
Theorem redrive_delete_entry_ids :
  exists st',
    SqsService.redriveMessages 1000 "env-1" "eu-west-1" "sess-1"
      FlowExamples.dlq FlowExamples.target
      [FlowExamples.input "0"; FlowExamples.input "1"; FlowExamples.input "2"]
      true FlowExamples.redrive_state
    = Some (Return (SqsService.mkSummary 2 1 2 0), st')
    /\ calls st'
       = [Aws.GetRoleCredentialsCommand "eu-west-1" "token-abc" "111111111111" "AdminRole";
          Aws.SendMessageBatchCommand FlowExamples.sqs FlowExamples.target
            [Aws.mkSendEntry "0-m0" "{}" None;
             Aws.mkSendEntry "1-m1" "{}" None;
             Aws.mkSendEntry "2-m2" "{}" None];
          Aws.DeleteMessageBatchCommand FlowExamples.sqs FlowExamples.dlq
            [Aws.mkDeleteEntry "0-m0" "rh0";
             Aws.mkDeleteEntry "1-m2" "rh2"]]
    /\ SqsService.entry_id 2 (FlowExamples.input "2") = "2-m2".
Proof.
  eexists. split; [vm_compute; reflexivity|]. split; vm_compute; reflexivity.
Qed.

(** * Part III: further properties of the sources *)

(** ** The session store (src/aws/sessionStore.ts) *)

Module SessionStoreMore.
Import SessionStore.


(** A read that returns nothing found nothing stored or an expired session. *)
Lemma getSsoSession_None now sid (store : Store) :
  fst (getSsoSession now sid store) = None ->
  store !! sid = None \/ exists v, store !! sid = Some v /\ expired now v.
Proof.
  unfold getSsoSession, expired.
  destruct (store !! sid) as [v0|]; [|by left].
  destruct (expiresAt v0) as [t|] eqn:Et; [|done].
  destruct (Z.leb_spec t now); [|done]. intros _. right. eauto.
Qed.

(** X1.  Round trip of [setSsoSession] and [getSsoSession]: a read of the id
    just written returns the written session, whatever was stored before,
    and leaves the store alone, unless the session's expiry time has been
    reached at the read; then the read answers [undefined] and the store is
    the one before the write without the id. *)
Theorem set_get_roundtrip (store : Store) (sessionId : string)
    (session : ConnectedSsoSession) (now : Z) :
  (~ expired now session ->
   getSsoSession now sessionId (setSsoSession sessionId session store)
   = (Some session, setSsoSession sessionId session store))
  /\ (expired now session ->
      getSsoSession now sessionId (setSsoSession sessionId session store)
      = (None, delete sessionId store)).
Proof.
  unfold getSsoSession, setSsoSession, expired. rewrite lookup_insert_eq.
  split.
  - intros Hlive. destruct (expiresAt session) as [t|] eqn:Ht; [|done].
    destruct (Z.leb_spec t now); [|done]. exfalso. apply Hlive. eauto.
  - intros (t & Ht & Hle). rewrite Ht.
    destruct (Z.leb_spec t now); [|lia]. by rewrite delete_insert_eq.
Qed.

(** X2.  Reads and writes of one id leave every other id alone: a read
    evicts at most the id it reads (an expired session of another id stays
    stored until it is read itself), and a write to [sid] changes no read of
    another id. *)
Theorem other_ids_untouched (store : Store) (sid sid' : string)
    (session : ConnectedSsoSession) (now : Z) (Hne : sid <> sid') :
  snd (getSsoSession now sid store) !! sid' = store !! sid'
  /\ fst (getSsoSession now sid' (setSsoSession sid session store))
     = fst (getSsoSession now sid' store)
  /\ snd (getSsoSession now sid' (setSsoSession sid session store)) !! sid
     = Some session.
Proof.
  split_and!.
  - unfold getSsoSession.
    destruct (store !! sid) as [v|]; [|done].
    destruct (expiresAt v) as [t|]; [|done].
    destruct (t <=? now); simpl; [|done]. by rewrite lookup_delete_ne.
  - unfold getSsoSession, setSsoSession. rewrite lookup_insert_ne by done.
    destruct (store !! sid') as [v|]; [|done].
    destruct (expiresAt v) as [t|]; [|done]. by destruct (t <=? now).
  - unfold getSsoSession, setSsoSession. rewrite lookup_insert_ne by done.
    destruct (store !! sid') as [v|]; simpl; [|by rewrite lookup_insert_eq].
    destruct (expiresAt v) as [t|]; simpl; [|by rewrite lookup_insert_eq].
    destruct (t <=? now); simpl; [|by rewrite lookup_insert_eq].
    rewrite lookup_delete_ne by done. by rewrite lookup_insert_eq.
Qed.

End SessionStoreMore.

(** X2 at two ids: reading an expired session of ["b"] does not disturb ["a"]. *)
Lemma other_ids_untouched_witness :
  let old := SessionStore.mkSession "my-sso" "eu-west-1" "t1" (Some 10) in
  let new := SessionStore.mkSession "my-sso" "eu-west-1" "t2" None in
  let store : SessionStore.Store := <["b" := old]> ∅ in
  snd (SessionStore.getSsoSession 50 "a" store) !! "b" = store !! "b"
  /\ fst (SessionStore.getSsoSession 50 "b" (SessionStore.setSsoSession "a" new store))
     = fst (SessionStore.getSsoSession 50 "b" store)
  /\ snd (SessionStore.getSsoSession 50 "b" (SessionStore.setSsoSession "a" new store))
       !! "a" = Some new.
Proof.
  intros old new store.
  apply (SessionStoreMore.other_ids_untouched store "a" "b" new 50). discriminate.
Defined.

(** ** The environment registry (src/aws/envConfig.ts) *)

Module EnvConfigFacts.
Import EnvConfig.

Lemma find_id_spec (envs : list EnvironmentConfig) (envId : string) :
  match List.find (fun e => String.eqb (env_id e) envId) envs with
  | Some env =>
      exists before after,
        envs = before ++ env :: after /\ env_id env = envId
        /\ Forall (fun e => env_id e <> envId) before
  | None => Forall (fun e => env_id e <> envId) envs
  end.
Proof.
  induction envs as [|e envs IH]; simpl; [constructor|].
  destruct (String.eqb_spec (env_id e) envId) as [Heq|Hne].
  - exists [], envs. split_and!; [done | done | constructor].
  - destruct (List.find _ envs) as [env|].
    + destruct IH as (before & after & -> & Hid & Hbefore).
      exists (e :: before), after. split_and!; [done | done | by constructor].
    + by constructor.
Qed.

Section Facts.
Context {P : Type}.

(** X3.  After [registerDynamicEnvironments(sessionId, envs)], whatever was
    registered before, [getEnvironment(envId, sessionId)] returns the first
    environment of [envs] with that id, and throws
    [Unknown environment id: envId] exactly when [envs] has none; the lookup
    changes nothing. *)
Theorem register_then_lookup (st : AppState P) (sessionId envId : string)
    (envs : list EnvironmentConfig) :
  let st1 := snd (registerDynamicEnvironments sessionId envs st) in
  snd (getEnvironment envId sessionId st1) = st1
  /\ (forall env, fst (getEnvironment envId sessionId st1) = Return env ->
        exists before after,
          envs = before ++ env :: after /\ env_id env = envId
          /\ Forall (fun e => env_id e <> envId) before)
  /\ (Forall (fun e => env_id e <> envId) envs
      <-> fst (getEnvironment envId sessionId st1)
          = Throw (new_Error ("Unknown environment id: " +:+ envId))).
Proof.
  intros st1. subst st1.
  unfold getEnvironment, getDynamicEnvironments, registerDynamicEnvironments,
    bind, ret, throw; simpl.
  rewrite lookup_insert_eq; simpl.
  pose proof (find_id_spec envs envId) as Hfind.
  destruct (List.find _ envs) as [env|]; simpl.
  - split_and!; [done | by intros ? [= <-] |].
    destruct Hfind as (before & after & -> & Hid & _). split; [|done].
    intros Hall. apply Forall_app in Hall as [_ Hall].
    apply Forall_cons in Hall as [Hne _]. done.
  - split_and!; [done | done | done].
Qed.

(** X4.  Environments are kept per session: registering for one session
    changes no lookup of another session, and a lookup for a session that has
    nothing registered throws [Unknown environment id], whatever the id. *)
Theorem lookup_per_session (st : AppState P) (sessionId other envId : string)
    (envs : list EnvironmentConfig) (Hne : sessionId <> other) :
  fst (getEnvironment envId other (snd (registerDynamicEnvironments sessionId envs st)))
  = fst (getEnvironment envId other st)
  /\ (dynamicEnvs st !! other = None ->
      fst (getEnvironment envId other st)
      = Throw (new_Error ("Unknown environment id: " +:+ envId))).
Proof.
  unfold getEnvironment, getDynamicEnvironments, registerDynamicEnvironments,
    bind, ret, throw; simpl.
  rewrite lookup_insert_ne by done. split.
  - by destruct (List.find _ _).
  - by intros ->.
Qed.

End Facts.
End EnvConfigFacts.

(** X4 at two sessions. *)
Lemma lookup_per_session_witness :
  let env := mkEnvironmentConfig "111-Admin" "Dev (Admin)" ["eu-west-1"]
               (Some "111") (Some "Admin") in
  let st : AppState unit := MockAws.initial tt in
  fst (EnvConfig.getEnvironment "111-Admin" "s2"
         (snd (EnvConfig.registerDynamicEnvironments "s1" [env] st)))
  = fst (EnvConfig.getEnvironment "111-Admin" "s2" st)
  /\ (dynamicEnvs st !! "s2" = None ->
      fst (EnvConfig.getEnvironment "111-Admin" "s2" st)
      = Throw (new_Error ("Unknown environment id: " +:+ "111-Admin"))).
Proof.
  intros env st.
  apply (EnvConfigFacts.lookup_per_session st "s1" "s2" "111-Admin" [env]).
  discriminate.
Defined.

(** ** Credential exchange (src/aws/sqsService.ts, [createSqsClient]) *)

Module CreateClientFacts.
Import SqsService.

Section Facts.
Context {P : Type} `{Aws.AwsProvider P}.

(** X5.  [createSqsClient] rejects without sending a request: for an
    environment id unknown to the session it throws
    [Unknown environment id] and changes nothing; with no live session
    (none stored, or an expired one, which the lookup evicts) it throws
    [No active SSO session]; for an environment without account id or role
    name it throws [Environment is missing SSO account info]. *)
Theorem createSqsClient_rejects_without_request
    (now : Z) (envId region sessionId : string) (st : AppState P) :
  (registered_env st envId sessionId = None ->
   createSqsClient now envId region sessionId st
   = (Throw (new_Error ("Unknown environment id: " +:+ envId)), st))
  /\ (forall env,
        registered_env st envId sessionId = Some env ->
        fst (SessionStore.getSsoSession now sessionId (store st)) = None ->
        createSqsClient now envId region sessionId st
        = (Throw (new_Error "No active SSO session for this client"),
           with_store st (snd (SessionStore.getSsoSession now sessionId (store st)))))
  /\ (forall env session,
        registered_env st envId sessionId = Some env ->
        SessionStore.getSsoSession now sessionId (store st) = (Some session, store st) ->
        truthy_opt_string (env_ssoAccountId env) = false
        \/ truthy_opt_string (env_ssoRoleName env) = false ->
        createSqsClient now envId region sessionId st
        = (Throw (new_Error "Environment is missing SSO account info"), st)).
Proof.
  unfold registered_env, with_store, createSqsClient, EnvConfig.getEnvironment,
    EnvConfig.getDynamicEnvironments, getSsoSession, bind, ret, throw; simpl.
  split_and!.
  - by intros ->.
  - intros env -> Hnone.
    destruct (SessionStore.getSsoSession now sessionId (store st)) as [v s'].
    simpl in Hnone. by subst v.
  - intros env session -> -> Hfalsy. destruct st; simpl.
    by destruct Hfalsy as [-> | ->]; rewrite ?orb_true_r.
Qed.


End Facts.
End CreateClientFacts.

(** ** Environment discovery (src/aws/ssoDiscovery.ts) *)

Module SsoDiscoveryFacts.
Import SsoDiscovery.

Lemma push_roles_omap ssoRegion aid account roles : forall environments,
  push_roles ssoRegion aid account roles environments
  = environments ++ omap (role_env ssoRegion aid account) roles.
Proof.
  induction roles as [|role roles IH]; intros environments; simpl.
  - by rewrite app_nil_r.
  - unfold role_env in *. destruct (roleName role) as [rn|]; [|apply IH].
    destruct (truthy_string rn); [|apply IH].
    rewrite IH. by rewrite <- app_assoc.
Qed.

Lemma role_env_well_formed ssoRegion aid account role env :
  aid <> EmptyString ->
  role_env ssoRegion aid account role = Some env -> well_formed ssoRegion env.
Proof.
  intros Haid. unfold role_env.
  destruct (roleName role) as [rn|]; [|done].
  destruct (truthy_string rn) eqn:Hrn; [|done]. intros [= <-].
  exists aid, rn. split_and!; try done. intros ->. discriminate.
Qed.

Lemma usable_account_nonempty account aid :
  usable_account account = Some aid -> aid <> EmptyString.
Proof.
  unfold usable_account. destruct (accountId account) as [a|]; [|done].
  destruct (truthy_string a) eqn:Ha; [|done]. intros [= <-] ->. discriminate.
Qed.

Lemma account_envs_well_formed ssoRegion roles_of account :
  Forall (well_formed ssoRegion) (account_envs ssoRegion roles_of account).
Proof.
  unfold account_envs. destruct (usable_account account) as [aid|] eqn:Hu; [|constructor].
  apply Forall_forall. intros env (role & _ & Hrole)%list_elem_of_omap.
  eapply role_env_well_formed; [|done]. by eapply usable_account_nonempty.
Qed.

Section Facts.
Context {P : Type} `{SsoDirectory P}.

Lemma discover_accounts_well_formed fuel session :
  forall accounts environments (p p' : P) envs,
    Forall (well_formed (SessionStore.ssoRegion session)) environments ->
    discover_accounts fuel session accounts environments p = Some (Return envs, p') ->
    Forall (well_formed (SessionStore.ssoRegion session)) envs.
Proof.
  induction accounts as [|account accounts IH]; intros environments p p' envs Hwf; simpl.
  - by intros [= <- <-].
  - destruct (accountId account) as [aid|]; [|by apply IH].
    destruct (truthy_string aid) eqn:Haid; [|by apply IH].
    destruct (list_roles fuel session aid [] None p) as [[[roles|e] p1]|]; try done.
    apply IH. rewrite push_roles_omap. apply Forall_app. split; [done|].
    apply Forall_forall. intros env (role & _ & Hrole)%list_elem_of_omap.
    eapply role_env_well_formed; [|done]. intros ->. discriminate.
Qed.

(** X7.  Every environment that [discoverSsoEnvironments] returns has an
    account id and a role name, both non-empty, the id
    [accountId-roleName], and exactly one permitted region, the SSO region of
    the session. *)
Theorem discovered_environments_well_formed
    (fuel : nat) (session : SessionStore.ConnectedSsoSession) (p p' : P)
    (envs : list EnvironmentConfig)
    (Hrun : discoverSsoEnvironments fuel session p = Some (Return envs, p')) :
  Forall (well_formed (SessionStore.ssoRegion session)) envs.
Proof.
  revert Hrun. unfold discoverSsoEnvironments.
  destruct (list_accounts fuel session [] None p) as [[[accounts|e] p1]|]; try done.
  by apply discover_accounts_well_formed.
Qed.

(** More fuel does not change a result. *)
Lemma list_accounts_fuel session : forall fuel fuel' accounts token (p : P) r,
  (fuel <= fuel')%nat ->
  list_accounts fuel session accounts token p = Some r ->
  list_accounts fuel' session accounts token p = Some r.
Proof.
  induction fuel as [|fuel IH]; intros [|fuel'] accounts token p r Hle; simpl;
    try done; try lia.
  destruct (listAccounts _ _ _ _) as [[res|e] p1]; [|done].
  destruct (truthy_opt_string _); [|done]. apply IH. lia.
Qed.

Lemma list_roles_fuel session aid : forall fuel fuel' roles token (p : P) r,
  (fuel <= fuel')%nat ->
  list_roles fuel session aid roles token p = Some r ->
  list_roles fuel' session aid roles token p = Some r.
Proof.
  induction fuel as [|fuel IH]; intros [|fuel'] roles token p r Hle; simpl;
    try done; try lia.
  destruct (listAccountRoles _ _ _ _ _) as [[res|e] p1]; [|done].
  destruct (truthy_opt_string _); [|done]. apply IH. lia.
Qed.

Lemma discover_accounts_fuel session fuel fuel' :
  (fuel <= fuel')%nat ->
  forall accounts environments (p : P) r,
    discover_accounts fuel session accounts environments p = Some r ->
    discover_accounts fuel' session accounts environments p = Some r.
Proof.
  intros Hle. induction accounts as [|account accounts IH];
    intros environments p r; simpl; [done|].
  destruct (accountId account) as [aid|]; [|apply IH].
  destruct (truthy_string aid); [|apply IH].
  destruct (list_roles fuel session aid [] None p) as [[[roles|e] p1]|] eqn:Hroles;
    [| |done].
  - rewrite (list_roles_fuel _ _ _ _ _ _ _ _ Hle Hroles). apply IH.
  - by rewrite (list_roles_fuel _ _ _ _ _ _ _ _ Hle Hroles).
Qed.

Lemma discover_fuel session fuel fuel' (p : P) r :
  (fuel <= fuel')%nat ->
  discoverSsoEnvironments fuel session p = Some r ->
  discoverSsoEnvironments fuel' session p = Some r.
Proof.
  intros Hle. unfold discoverSsoEnvironments.
  destruct (list_accounts fuel session [] None p) as [[[accounts|e] p1]|] eqn:Hacc;
    [| |done].
  - rewrite (list_accounts_fuel _ _ _ _ _ _ _ Hle Hacc).
    by apply discover_accounts_fuel.
  - by rewrite (list_accounts_fuel _ _ _ _ _ _ _ Hle Hacc).
Qed.

(** X8.  The listings have no page limit of their own: against a directory
    that answers every account-listing request with a continuation token,
    the first loop never ends (no bound on the number of pages yields a
    result). *)
Theorem discovery_follows_tokens_without_limit
    (session : SessionStore.ConnectedSsoSession)
    (Hmore : forall region token nextToken (p : P),
        exists res p',
          listAccounts region token nextToken p = (Return res, p')
          /\ truthy_opt_string (la_nextToken res) = true) :
  forall fuel (p : P), discoverSsoEnvironments fuel session p = None.
Proof.
  assert (Hloop : forall fuel accounts token (p : P),
             list_accounts fuel session accounts token p = None).
  { induction fuel as [|fuel IH]; intros accounts token p; simpl; [done|].
    destruct (Hmore (SessionStore.ssoRegion session)
                (SessionStore.accessToken session) token p)
      as (res & p' & -> & ->). apply IH. }
  intros fuel p. unfold discoverSsoEnvironments. by rewrite Hloop.
Qed.

End Facts.
(** *** Discovery against a directory given by its pages *)

Lemma pretty_N_go_length x : forall s,
  (String.length s <= String.length (pretty_N_go x s))%nat.
Proof.
  induction (N.lt_wf_0 x) as [x _ IH]; intros s.
  destruct (decide (x = 0)%N) as [->|Hx]; [by rewrite pretty_N_go_0|].
  rewrite pretty_N_go_step by lia.
  etrans; [|apply IH; apply N.div_lt; lia]. simpl. lia.
Qed.

Lemma pretty_nat_truthy (n : nat) : truthy_string (pretty n) = true.
Proof.
  apply truthy_string_true. unfold pretty, pretty_nat, pretty, pretty_N.
  case_decide; [discriminate|]. intros Heq.
  rewrite pretty_N_go_step in Heq by lia.
  pose proof (pretty_N_go_length (N.of_nat n `div` 10)
                (String (pretty_N_char (N.of_nat n `mod` 10)) EmptyString)) as Hlen.
  rewrite Heq in Hlen. simpl in Hlen. lia.
Qed.

Lemma page_index_pretty k : forall count j,
  (j <= k < j + count)%nat -> page_index (pretty k) j count = Some k.
Proof.
  induction count as [|count IH]; intros j Hk; simpl; [lia|].
  destruct (String.eqb_spec (pretty j) (pretty k)) as [Heq|Hne].
  - by apply (inj pretty) in Heq as ->.
  - apply IH. assert (j <> k) by (intros ->; done). lia.
Qed.

Lemma requested_page_after {A} (pages : list (list A)) k :
  (S k < length pages)%nat ->
  requested_page pages (token_after pages k) = Some (S k).
Proof.
  intros Hk. unfold token_after. destruct (Nat.ltb_spec (S k) (length pages)); [|lia].
  simpl. apply page_index_pretty. lia.
Qed.

Lemma token_after_truthy {A} (pages : list (list A)) k :
  truthy_opt_string (token_after pages k)
  = bool_decide (S k < length pages)%nat.
Proof.
  unfold token_after. destruct (Nat.ltb_spec (S k) (length pages)); simpl.
  - rewrite pretty_nat_truthy. by rewrite bool_decide_eq_true_2.
  - by rewrite bool_decide_eq_false_2 by lia.
Qed.

(** The pages from [k] on, joined. *)
Lemma concat_drop_page {A} (pages : list (list A)) k :
  concat (drop k pages) = default [] (pages !! k) ++ concat (drop (S k) pages).
Proof.
  destruct (pages !! k) as [page|] eqn:Hk.
  - by rewrite (drop_S _ _ _ Hk).
  - apply lookup_ge_None in Hk. rewrite !drop_ge by lia. done.
Qed.

Lemma list_accounts_paged session (p : Paged) : forall fuel k accounts token,
  requested_page (dir_accounts p) token = Some k ->
  (length (dir_accounts p) - k <= fuel)%nat -> (1 <= fuel)%nat ->
  list_accounts fuel session accounts token p
  = Some (Return (accounts ++ concat (drop k (dir_accounts p))), p).
Proof.
  induction fuel as [|fuel IH]; intros k accounts token Htoken Hfuel Hone; [lia|].
  simpl. rewrite Htoken. simpl. rewrite token_after_truthy.
  rewrite (concat_drop_page (dir_accounts p) k).
  case_bool_decide as Hnext.
  - rewrite (IH (S k)); [by rewrite app_assoc | by apply requested_page_after | lia..].
  - rewrite (drop_ge _ (S k)) by lia. simpl. by rewrite app_nil_r.
Qed.

Lemma list_roles_paged session aid (p : Paged) : forall fuel k roles token,
  requested_page (dir_roles p aid) token = Some k ->
  (length (dir_roles p aid) - k <= fuel)%nat -> (1 <= fuel)%nat ->
  list_roles fuel session aid roles token p
  = Some (Return (roles ++ concat (drop k (dir_roles p aid))), p).
Proof.
  induction fuel as [|fuel IH]; intros k roles token Htoken Hfuel Hone; [lia|].
  simpl. rewrite Htoken. simpl. rewrite token_after_truthy.
  rewrite (concat_drop_page (dir_roles p aid) k).
  case_bool_decide as Hnext.
  - rewrite (IH (S k)); [by rewrite app_assoc | by apply requested_page_after | lia..].
  - rewrite (drop_ge _ (S k)) by lia. simpl. by rewrite app_nil_r.
Qed.

Lemma discover_accounts_paged session fuel (p : Paged) :
  (1 <= fuel)%nat ->
  forall accounts environments,
    (forall account aid,
        account ∈ accounts -> usable_account account = Some aid ->
        (length (dir_roles p aid) <= fuel)%nat) ->
    discover_accounts fuel session accounts environments p
    = Some (Return
              (environments
               ++ (accounts ≫= account_envs (SessionStore.ssoRegion session)
                                 (fun aid => concat (dir_roles p aid)))), p).
Proof.
  intros Hone. induction accounts as [|account accounts IH];
    intros environments Hfit; simpl.
  - by rewrite app_nil_r.
  - assert (Hrest : forall a aid, a ∈ accounts -> usable_account a = Some aid ->
                      (length (dir_roles p aid) <= fuel)%nat).
    { intros a aid Ha. apply Hfit. by apply elem_of_cons; right. }
    specialize (Hfit account). unfold account_envs at 1. unfold usable_account in *.
    destruct (accountId account) as [aid|]; [|by apply IH].
    destruct (truthy_string aid); [|by apply IH].
    rewrite (list_roles_paged session aid p fuel 0 [] None);
      [|done | specialize (Hfit aid); rewrite Nat.sub_0_r; apply Hfit;
                [apply list_elem_of_here | done] | done].
    rewrite drop_0. simpl. rewrite (IH _ Hrest), push_roles_omap.
    by rewrite <- app_assoc.
Qed.

(** X9.  Against a directory whose listings are cut into pages, discovery
    drains every page of both levels and returns, accounts outermost and in
    listing order, one environment per account with an id and role with a
    name; accounts without id and roles without name are skipped. *)
Theorem discovery_drains_all_pages
    (fuel : nat) (session : SessionStore.ConnectedSsoSession) (p : Paged)
    (Hfits : fits fuel p) :
  discoverSsoEnvironments fuel session p
  = Some (Return
            (concat (dir_accounts p)
             ≫= account_envs (SessionStore.ssoRegion session)
                  (fun aid => concat (dir_roles p aid))), p).
Proof.
  destruct Hfits as (Hone & Haccounts & Hroles).
  unfold discoverSsoEnvironments.
  rewrite (list_accounts_paged session p fuel 0 [] None); [|done | lia | done].
  rewrite drop_0. simpl.
  by rewrite (discover_accounts_paged session fuel p Hone _ [] Hroles).
Qed.

End SsoDiscoveryFacts.

(** ** Discovery, registration and credential exchange together *)

Module DiscoveryFlowFacts.
Import SsoDiscovery SqsService.

Section Facts.
Context {P D : Type} `{Aws.AwsProvider P} `{SsoDirectory D}.

(** X10.  An environment that discovery returned, once the result is
    registered for a session with a live SSO session, passes the checks of
    [createSqsClient]: the call gets as far as the role-credentials request,
    sent in the session's SSO region for the account and role that make up
    the environment id. *)
Theorem discovered_environment_reaches_exchange
    (fuel : nat) (session : SessionStore.ConnectedSsoSession) (d d' : D)
    (envs : list EnvironmentConfig) (env : EnvironmentConfig)
    (st : AppState P) (now : Z) (region sessionId : string)
    (live : SessionStore.ConnectedSsoSession)
    (Hrun : discoverSsoEnvironments fuel session d = Some (Return envs, d'))
    (Henv : env ∈ envs)
    (Hregistered : dynamicEnvs st !! sessionId = Some envs)
    (Hlive : SessionStore.getSsoSession now sessionId (store st)
             = (Some live, store st)) :
  exists r st' account role,
    createSqsClient now (env_id env) region sessionId st = (r, st')
    /\ env_id env = account +:+ "-" +:+ role
    /\ calls st' = calls st
         ++ [Aws.GetRoleCredentialsCommand (SessionStore.ssoRegion live)
               (SessionStore.accessToken live) account role].
Proof.
  assert (Forall (well_formed (SessionStore.ssoRegion session)) envs) as Hwf.
  { revert Hrun. unfold discoverSsoEnvironments.
    destruct (list_accounts fuel session [] None d) as [[[accounts|e] d1]|]; try done.
    by apply SsoDiscoveryFacts.discover_accounts_well_formed. }
  pose proof (EnvConfigFacts.find_id_spec envs (env_id env)) as Hfind.
  unfold createSqsClient, EnvConfig.getEnvironment, EnvConfig.getDynamicEnvironments,
    getSsoSession, bind, ret, throw; simpl.
  rewrite Hregistered; simpl.
  destruct (List.find _ envs) as [env'|].
  2:{ rewrite Forall_forall in Hfind. by destruct (Hfind env Henv). }
  destruct Hfind as (before & after & Henvs & Hid & _).
  assert (env' ∈ envs) as Hin'.
  { rewrite Henvs. apply elem_of_app. right. apply list_elem_of_here. }
  rewrite Forall_forall in Hwf.
  destruct (Hwf env' Hin') as (aid & rn & Haid & Hrn & Hid' & _ & Ha & Hr).
  rewrite Hlive, Ha, Hr. simpl.
  rewrite (truthy_string_true _ Haid), (truthy_string_true _ Hrn). simpl.
  rewrite ReceiveFacts.send_eq.
  destruct (Aws.getRoleCredentials _ _ _ _ _) as [[[rc|]|e] p']; simpl.
  - destruct (_ && _); eexists _, _, aid, rn; (split; [done|]);
      (split; [congruence | done]).
  - eexists _, _, aid, rn. split; [done|]. split; [congruence | done].
  - eexists _, _, aid, rn. split; [done|]. split; [congruence | done].
Qed.

End Facts.
End DiscoveryFlowFacts.

(** ** The device-authorization flow (src/aws/ssoLogin.ts) *)

Module SsoLoginMore.
Import SsoLogin SsoLoginFacts.

(** The session that a completed login stores. *)
Definition login_session (profile : SsoProfile) (now : Z) (token : string)
    (expiresIn : Z) : SessionStore.ConnectedSsoSession :=
  SessionStore.mkSession (ssoSession profile) (ssoRegion profile) token
    (Some (now + expiresIn * 1000)).

Section Facts.
Context {P : Type} `{Aws.AwsProvider P}.

(** X11.  [startLogin] never touches the session store or the environment
    registry.  For an unknown profile it throws [Unknown SSO profile] and
    changes nothing at all.  What it returns is complete: device code,
    verification URI and user code are non-empty, the polling interval is not
    zero, the expiry is [now + expiresIn * 1000] for a non-zero [expiresIn],
    and the registered client is cached afterwards. *)
Theorem startLogin_outcomes
    (profiles : list SsoProfile) (now : Z) (profileName : string)
    (st st' : AppState P) (r : Outcome StartLoginResult)
    (Hrun : startLogin profiles now profileName st = (r, st')) :
  store st' = store st /\ dynamicEnvs st' = dynamicEnvs st
  /\ (List.find (fun p => String.eqb (name p) profileName) profiles = None ->
      r = Throw (new_Error ("Unknown SSO profile: " +:+ profileName)) /\ st' = st)
  /\ (forall res, r = Return res ->
        deviceCode res <> EmptyString /\ verificationUri res <> EmptyString
        /\ userCode res <> EmptyString /\ intervalSeconds res <> 0
        /\ (exists expiresIn, expiresIn <> 0 /\ expiresAt res = now + expiresIn * 1000)
        /\ is_Some (registeredClient st')).
Proof.
  revert Hrun. unfold startLogin.
  destruct (List.find _ profiles) as [profile|].
  2:{ intros [= <- <-]. split_and!; try done. }
  unfold bind at 1.
  destruct (getRegisteredClient (ssoRegion profile) st) as [[c|e] st1] eqn:Hclient.
  2:{ intros [= <- <-]. apply getRegisteredClient_cases in Hclient as (? & ? & _).
      split_and!; try done. }
  pose proof (getRegisteredClient_returns _ _ _ _ Hclient) as Hcached.
  apply getRegisteredClient_cases in Hclient as (Hstore & Henvs & _).
  unfold bind. rewrite ReceiveFacts.send_eq.
  destruct (Aws.startDeviceAuthorization _ _ _ _ _) as [[res|e] p']; simpl.
  2:{ intros [= <- <-]. split_and!; try done. }
  destruct (Aws.sda_deviceCode res) as [dc|]; simpl;
    [|intros [= <- <-]; split_and!; done].
  destruct (truthy_string dc) eqn:Hdc; simpl;
    [|intros [= <- <-]; split_and!; done].
  destruct (Aws.sda_verificationUriComplete res) as [uri|]; simpl;
    [|intros [= <- <-]; split_and!; done].
  destruct (truthy_string uri) eqn:Huri; simpl;
    [|intros [= <- <-]; split_and!; done].
  destruct (Aws.sda_userCode res) as [uc|]; simpl;
    [|intros [= <- <-]; split_and!; done].
  destruct (truthy_string uc) eqn:Huc; simpl;
    [|intros [= <- <-]; split_and!; done].
  destruct (Aws.sda_interval res) as [iv|]; simpl;
    [|intros [= <- <-]; split_and!; done].
  destruct (Z.eqb_spec iv 0); simpl;
    [intros [= <- <-]; split_and!; done|].
  destruct (Aws.sda_expiresIn res) as [ex|]; simpl;
    [|intros [= <- <-]; split_and!; done].
  destruct (Z.eqb_spec ex 0); simpl;
    [intros [= <- <-]; split_and!; done|].
  unfold ret. intros [= <- <-]. simpl. split_and!; try done.
  intros res0 [= <-]. simpl.
  split_and!; try done; try (intros ->; discriminate);
    try (by exists ex); try (by rewrite Hcached).
Qed.

(** X12.  A completed login is usable: when the token request returns an
    access token and a non-zero [expiresIn], [pollForLogin] returns
    [{success: true}] and stores under [sessionId] a session with the
    profile's session name and region, the token, and the expiry
    [now + expiresIn * 1000]; every read of [sessionId] before that expiry
    returns this session. *)
Theorem pollForLogin_success_stores_session
    (profiles : list SsoProfile) (now : Z) (profileName deviceCode sessionId : string)
    (st st1 : AppState P) (profile : SsoProfile) (c : RegisteredClient)
    (res : Aws.CreateTokenResponse) (p2 : P) (token : string) (expiresIn : Z)
    (Hprofile : List.find (fun p => String.eqb (name p) profileName) profiles
                = Some profile)
    (Hclient : getRegisteredClient (ssoRegion profile) st = (Return c, st1))
    (Htoken : Aws.createToken (ssoRegion profile) (clientId c) (clientSecret c)
                deviceCode grant_type (aws st1) = (Return res, p2))
    (Haccess : Aws.ctr_accessToken res = Some token)
    (Hnonempty : token <> EmptyString)
    (Hexpires : Aws.ctr_expiresIn res = Some expiresIn)
    (Hnonzero : expiresIn <> 0) :
  exists st',
    pollForLogin profiles now profileName deviceCode sessionId st
    = (Return (mkPollLoginResult true None), st')
    /\ store st'
       = <[sessionId := login_session profile now token expiresIn]> (store st)
    /\ forall t, t < now + expiresIn * 1000 ->
         SessionStore.getSsoSession t sessionId (store st')
         = (Some (login_session profile now token expiresIn), store st').
Proof.
  pose proof (getRegisteredClient_store _ _ _ _ Hclient) as Hstore.
  eexists. unfold pollForLogin. rewrite Hprofile.
  unfold bind at 1. rewrite Hclient.
  unfold bind at 1, try_catch, bind at 1, send, ret.
  rewrite Htoken. simpl. rewrite Haccess, Hexpires.
  rewrite (truthy_string_true _ Hnonempty).
  destruct (Z.eqb_spec expiresIn 0); [done|]. simpl.
  unfold bind, setSsoSession, ret; simpl. split; [done|]. simpl.
  rewrite Hstore. split; [done|].
  intros t Ht. unfold SessionStore.getSsoSession, SessionStore.setSsoSession.
  rewrite lookup_insert_eq. simpl.
  destruct (Z.leb_spec (now + expiresIn * 1000) t); [lia | done].
Qed.

(** X13.  [pollForLogin] writes the session store on success only: whatever
    the outcome, the environment registry is untouched and every other
    session id keeps its entry; the entry of [sessionId] changes only when
    the call returns [{success: true}], and the only values it returns are
    [{success: true}] and [{success: false, pending: true}]. *)
Theorem pollForLogin_writes_on_success_only
    (profiles : list SsoProfile) (now : Z) (profileName deviceCode sessionId : string)
    (st st' : AppState P) (r : Outcome PollLoginResult)
    (Hrun : pollForLogin profiles now profileName deviceCode sessionId st = (r, st')) :
  dynamicEnvs st' = dynamicEnvs st
  /\ (forall other, other <> sessionId -> store st' !! other = store st !! other)
  /\ (r <> Return (mkPollLoginResult true None) -> store st' = store st)
  /\ (forall res, r = Return res ->
        res = mkPollLoginResult true None
        \/ res = mkPollLoginResult false (Some true)).
Proof.
  revert Hrun. unfold pollForLogin.
  destruct (List.find _ profiles) as [profile|].
  2:{ intros [= <- <-]. split_and!; done. }
  unfold bind at 1.
  destruct (getRegisteredClient (ssoRegion profile) st) as [[c|e] st1] eqn:Hclient.
  2:{ intros [= <- <-]. apply getRegisteredClient_cases in Hclient as (Hs & ? & _).
      split_and!; try done. intros. by rewrite Hs. }
  apply getRegisteredClient_cases in Hclient as (Hstore & Henvs & _).
  unfold bind at 1, try_catch, bind at 1. rewrite ReceiveFacts.send_eq.
  destruct (Aws.createToken _ _ _ _ _ _) as [[res|e] p']; simpl.
  - unfold ret at 1. simpl.
    assert (Hkeep : forall msg (s : AppState P),
               store s = store st1 -> dynamicEnvs s = dynamicEnvs st1 ->
               (Throw (new_Error msg), s) = (r, st') ->
               dynamicEnvs st' = dynamicEnvs st
               /\ (forall other, other <> sessionId ->
                     store st' !! other = store st !! other)
               /\ (r <> Return (mkPollLoginResult true None) -> store st' = store st)
               /\ (forall res, r = Return res ->
                     res = mkPollLoginResult true None
                     \/ res = mkPollLoginResult false (Some true))).
    { intros msg s Hs He [= <- <-].
      split_and!; try done; try congruence; intros; congruence. }
    destruct (Aws.ctr_accessToken res) as [tok|]; [|by apply Hkeep].
    destruct (Aws.ctr_expiresIn res) as [ex|]; [|by apply Hkeep].
    destruct (truthy_string tok && negb (ex =? 0)); [|by apply Hkeep].
    unfold bind, setSsoSession, ret, SessionStore.setSsoSession; simpl.
    intros [= <- <-]. simpl. split_and!; try done.
    + intros other Hne. rewrite lookup_insert_ne by done. by rewrite Hstore.
    + intros res0 [= <-]. by left.
  - destruct (is_authorization_pending e); unfold ret, throw; intros [= <- <-]; simpl;
      (split_and!; [congruence | intros; congruence | intros; congruence |]).
    + intros res0 [= <-]. by right.
    + by intros res0 [=].
Qed.

(** X14.  A registration that fails is not cached: when no client is cached
    and [getRegisteredClient] throws (the request failed, or the answer
    lacked the client id or secret), no client is cached afterwards, and the
    next call sends a registration request again, for the region it is
    called with. *)
Theorem failed_registration_is_retried
    (region region' : string) (st st1 st2 : AppState P) (e : JsError)
    (r : Outcome RegisteredClient)
    (Hempty : registeredClient st = None)
    (Hfail : getRegisteredClient region st = (Throw e, st1))
    (Hnext : getRegisteredClient region' st1 = (r, st2)) :
  registeredClient st1 = None
  /\ calls st1
     = calls st ++ [Aws.RegisterClientCommand region "sqs-dlq-redrive-webapp" "public"]
  /\ calls st2
     = calls st1 ++ [Aws.RegisterClientCommand region' "sqs-dlq-redrive-webapp" "public"].
Proof.
  apply getRegisteredClient_cases in Hfail as (_ & _ & [Hhit | Hmiss]).
  { destruct Hhit as (c & Hc & _). congruence. }
  destruct Hmiss as (_ & Hcalls1 & Hnone).
  apply getRegisteredClient_cases in Hnext as (_ & _ & [Hhit | Hmiss]).
  { destruct Hhit as (c & Hc & _). congruence. }
  destruct Hmiss as (_ & Hcalls2 & _). done.
Qed.

End Facts.
End SsoLoginMore.

(** ** The attribute filter (src/filtering/jsonFilter.ts) *)

Module JsonFilterMore.
Import JsonFilter JsonFilterFacts.

Lemma split_nonempty sep s : split sep s <> [].
Proof.
  destruct s as [|c s]; simpl; [done|].
  destruct (Ascii.eqb c sep); [done|]. by destruct (split sep s).
Qed.

Lemma split_app sep p q :
  split sep (p +:+ String sep q) = split sep p ++ split sep q.
Proof.
  induction p as [|c p IH]; simpl.
  - by rewrite Ascii.eqb_refl.
  - destruct (Ascii.eqb c sep); [by rewrite IH|].
    rewrite IH. pose proof (split_nonempty sep p). by destruct (split sep p).
Qed.

Section Facts.
Context {V : Type} `{JsRuntime V}.

Lemma getByPath_loop_app (Hnull : is_nullish undefined = true) parts1 :
  forall parts2 (obj : V),
    getByPath_loop obj (parts1 ++ parts2)
    = getByPath_loop (getByPath_loop obj parts1) parts2.
Proof.
  induction parts1 as [|part parts1 IH]; intros parts2 obj; simpl; [done|].
  destruct (is_nullish obj || negb (typeof_object obj)); [|apply IH].
  destruct parts2; simpl; [done|]. by rewrite Hnull.
Qed.

(** X15.  Paths compose: for non-empty [p] and [q], resolving [p.q] is
    resolving [q] in what [p] resolves to; in particular the result is
    [undefined] as soon as a prefix of the path does not lead to an object.
    (With [undefined == null], as in JavaScript.) *)
Theorem getByPath_compose (obj : V) (p q : string)
    (Hnull : is_nullish undefined = true)
    (Hp : p <> EmptyString) (Hq : q <> EmptyString) :
  getByPath obj (p +:+ "." +:+ q) = getByPath (getByPath obj p) q
  /\ (is_nullish (getByPath obj p) || negb (typeof_object (getByPath obj p)) = true ->
      getByPath obj (p +:+ "." +:+ q) = undefined).
Proof.
  assert (Hpq : getByPath obj (p +:+ "." +:+ q) = getByPath (getByPath obj p) q).
  { unfold getByPath.
    rewrite (truthy_string_true _ Hp), (truthy_string_true _ Hq).
    assert (truthy_string (p +:+ "." +:+ q) = true) as -> by (by destruct p).
    simpl. change ("." +:+ q) with (String "."%char q).
    by rewrite split_app, getByPath_loop_app. }
  split; [done|]. rewrite Hpq. intros Hstop. unfold getByPath at 1.
  rewrite (truthy_string_true _ Hq). simpl.
  pose proof (split_nonempty "."%char q).
  destruct (split "."%char q); [done|]. simpl. by rewrite Hstop.
Qed.

Variables (path expected : string).

Lemma filter_one_unresolved exclude msg parsed :
  unresolved msg path parsed ->
  filter_one path expected exclude msg
  = Return (if exclude then [mkFiltered msg parsed undefined None] else []).
Proof.
  intros (body & Hb & Hne & Hp & Hu). unfold filter_one, filter_step.
  rewrite Hb, (truthy_string_true _ Hne), Hp; simpl. rewrite Hu.
  by destruct exclude.
Qed.

(** X16.  A message whose body parses but whose path does not resolve counts
    as not matching: it is left out when [exclude] is false and kept, with no
    attribute value, when [exclude] is true. *)
Theorem filter_absent_attribute (messages : list RawMessage) (msg : RawMessage)
    (parsed : V) (inc exc : list FilteredMessage)
    (Hin : msg ∈ messages)
    (Habsent : unresolved msg path parsed)
    (Hinc : filterByAttributePath messages path expected false = Return inc)
    (Hexc : filterByAttributePath messages path expected true = Return exc) :
  (msg ∉ raws inc) /\ mkFiltered msg parsed undefined None ∈ exc.
Proof.
  split.
  - rewrite (elem_of_raws_filter path expected false messages inc msg Hinc Hin).
    rewrite (filter_one_unresolved false msg parsed Habsent).
    intros (r & fm & [= <-] & Hfm). by apply elem_of_nil in Hfm.
  - apply (filter_elem_of path expected true messages exc Hexc).
    exists msg. eexists. split; [done|].
    split; [by apply filter_one_unresolved|]. apply list_elem_of_here.
Qed.

(** What one iteration can append. *)
Lemma filter_one_entries exclude msg r fm :
  filter_one path expected exclude msg = Return r -> fm ∈ r ->
  raw fm = msg
  /\ (error_entry fm
      \/ (exclude = true /\ absent_entry path fm)
      \/ exists str, value_entry path str fm
                     /\ (if exclude then str <> expected else str = expected)).
Proof.
  unfold filter_one, filter_step.
  destruct (Body msg) as [body|] eqn:Hb; [|by intros [= <-] ?%elem_of_nil].
  destruct (truthy_string body) eqn:Ht; simpl; [|by intros [= <-] ?%elem_of_nil].
  assert (body <> EmptyString) as Hne by (intros ->; discriminate).
  destruct (JSON_parse body) as [v|e] eqn:Hp; simpl.
  - destruct (is_undefined _) eqn:Hu.
    { destruct exclude; intros [= <-]; [|by intros ?%elem_of_nil].
      intros ->%list_elem_of_singleton. split; [done|]. right. left.
      split; [done|]. split; [|done]. exists body. by split_and!. }
    destruct (String_ _) as [str|e'] eqn:Hs; [|done].
    destruct (String.eqb_spec str expected) as [Heq|Hneq];
      destruct exclude; simpl; intros [= <-];
      try (by intros ?%elem_of_nil);
      intros ->%list_elem_of_singleton; (split; [done|]); right; right;
      exists str; (split; [|done]); unfold value_entry, parsed_from; simpl;
      (split_and!; try done); by exists body.
  - rewrite (truthy_string_true _ (JSON_parse_message _ _ Hp)).
    intros [= <-] ->%list_elem_of_singleton. split; [done|]. left.
    exists e. split; [|done]. by exists body.
Qed.

(** X17.  Every entry of a returned result is accounted for: its message
    is one of the input messages, and the entry is either the parse error of
    that message, or (only when [exclude] is true) the message with no value
    because the path does not resolve, or the message with the value found at
    the path, kept as parsed, whose string equals [expectedValue] when
    [exclude] is false and differs from it when [exclude] is true. *)
Theorem filter_entries_sound (messages : list RawMessage) (exclude : bool)
    (out : list FilteredMessage) (fm : FilteredMessage)
    (Hout : filterByAttributePath messages path expected exclude = Return out)
    (Hfm : fm ∈ out) :
  raw fm ∈ messages
  /\ (error_entry fm
      \/ (exclude = true /\ absent_entry path fm)
      \/ exists str, value_entry path str fm
                     /\ (if exclude then str <> expected else str = expected)).
Proof.
  apply (filter_elem_of path expected exclude messages out Hout) in Hfm
    as (msg & r & Hmsg & Hr & Hin).
  destruct (filter_one_entries exclude msg r fm Hr Hin) as [-> Hkind]. done.
Qed.

Lemma filter_one_raws exclude msg r :
  filter_one path expected exclude msg = Return r -> raws r = [] \/ raws r = [msg].
Proof.
  unfold filter_one, filter_step.
  destruct (Body msg) as [body|]; [|intros [= <-]; by left].
  destruct (truthy_string body); simpl; [|intros [= <-]; by left].
  destruct (JSON_parse body) as [v|e]; simpl.
  - destruct (is_undefined _).
    { destruct exclude; intros [= <-]; [by right | by left]. }
    destruct (String_ _) as [str|e]; [|done].
    destruct (if exclude then _ else _); intros [= <-]; [by right | by left].
  - destruct (truthy_string (err_message e)); simpl; [intros [= <-]; by right|].
    destruct (is_undefined _).
    { destruct exclude; intros [= <-]; [by right | by left]. }
    destruct (String_ _) as [str|e']; [|done].
    destruct (if exclude then _ else _); intros [= <-]; [by right | by left].
Qed.

(** X18.  The filter keeps the order of its input and emits at most one
    entry per message: the raw messages of a result, in order, are a
    subsequence of the input. *)
Theorem filter_preserves_order (messages : list RawMessage) (exclude : bool)
    (out : list FilteredMessage)
    (Hout : filterByAttributePath messages path expected exclude = Return out) :
  raws out `sublist_of` messages /\ (length out <= length messages)%nat.
Proof.
  assert (Hsub : raws out `sublist_of` messages).
  { revert out Hout. induction messages as [|msg rest IH]; intros out.
    - by intros [= <-].
    - rewrite filter_cons.
      destruct (filter_one path expected exclude msg) as [r|e] eqn:E1; [|done].
      destruct (filterByAttributePath rest path expected exclude) as [r'|e] eqn:E2;
        simpl; [|done].
      intros [= <-]. unfold raws in *. rewrite fmap_app.
      destruct (filter_one_raws exclude msg r E1) as [Hr | Hr];
        unfold raws in Hr; rewrite Hr; simpl.
      + apply sublist_cons. by apply IH.
      + apply sublist_skip. by apply IH. }
  split; [done|]. apply sublist_length in Hsub. unfold raws in Hsub.
  by rewrite length_fmap in Hsub.
Qed.

(** X19.  Filtering a concatenation is filtering the parts: when the calls
    on the two parts return, the call on the whole returns their results one
    after the other; when the call on the first part throws, so does the call
    on the whole, with the same exception. *)
Theorem filter_concatenation (first second : list RawMessage) (exclude : bool) :
  (forall r1 r2,
      filterByAttributePath first path expected exclude = Return r1 ->
      filterByAttributePath second path expected exclude = Return r2 ->
      filterByAttributePath (first ++ second) path expected exclude
      = Return (r1 ++ r2))
  /\ (forall e,
        filterByAttributePath first path expected exclude = Throw e ->
        filterByAttributePath (first ++ second) path expected exclude = Throw e)
  /\ (forall r1 e,
        filterByAttributePath first path expected exclude = Return r1 ->
        filterByAttributePath second path expected exclude = Throw e ->
        filterByAttributePath (first ++ second) path expected exclude = Throw e).
Proof.
  split_and!.
  - intros r1 r2 H1 H2. by rewrite filter_app, H1, H2.
  - intros e H1. by rewrite filter_app, H1.
  - intros r1 e H1 H2. by rewrite filter_app, H1, H2.
Qed.

End Facts.
End JsonFilterMore.

(** ** Deduplicated retrieval (src/aws/sqsService.ts, [receiveDeduplicated]) *)

Module ReceiveMore.
Import SqsService ReceiveFacts.

(** A batch of messages whose keys have all been seen adds nothing. *)
Lemma dedup_batch_all_seen batch : forall seen messages n,
  Forall (fun msg => dedup_key msg ∈ seen) batch ->
  dedup_batch batch seen messages n = (seen, messages, n).
Proof.
  induction batch as [|msg rest IH]; intros seen messages n Hall; simpl; [done|].
  apply Forall_cons in Hall as [Hmsg Hrest].
  rewrite bool_decide_eq_true_2 by done. by apply IH.
Qed.


Section Facts.
Context {P : Type} `{Aws.AwsProvider P}.



(** X22.  Cycle detection: when the loop still wants messages and the
    provider answers with a non-empty batch in which every message has a key
    that was already seen, the loop stops there and returns the messages
    collected so far, with no further request. *)
Theorem receive_loop_stops_on_redelivery
    (fuel : nat) (client : Aws.SQSClient) (queueUrl : string)
    (options : PreviewOptions) (maxMessages : Z)
    (seen : gset string) (messages batch : list RawMessage)
    (st : AppState P) (p' : P)
    (Hwant : Z.of_nat (length messages) < maxMessages)
    (Hanswer :
       Aws.receiveMessage client
         (Aws.mkReceiveMessageRequest queueUrl
            (Z.min 10 (maxMessages - Z.of_nat (length messages)))
            (default 1 (waitTimeSeconds options)) (visibilityTimeout options)
            ["All"] ["All"]) (aws st)
       = (Return (Some batch), p'))
    (Hseen : Forall (fun msg => dedup_key msg ∈ seen) batch) :
  exists st',
    receive_loop (S fuel) client queueUrl options maxMessages seen messages st
    = Some (Return messages, st')
    /\ length (calls st') = S (length (calls st))
    /\ aws st' = p'.
Proof.
  simpl. destruct (Z.ltb_spec (Z.of_nat (length messages)) maxMessages); [|lia].
  rewrite send_eq, Hanswer. simpl.
  rewrite (dedup_batch_all_seen batch seen messages 0 Hseen). simpl.
  destruct (length batch =? 0)%nat; eexists; (split; [done|]); simpl;
    rewrite length_app; simpl; split; (lia || done).
Qed.

End Facts.
End ReceiveMore.

(** ** Batched redrive (src/aws/sqsService.ts, [redriveMessages]) *)

Module RedriveMore.
Import SqsService RedriveFacts.

(** Labels that are injective in the index are pairwise different. *)
Lemma NoDup_imap_index {A B} (f : nat -> A -> B) (l : list A) :
  (forall j k a b, f j a = f k b -> j = k) -> NoDup (imap f l).
Proof.
  revert f. induction l as [|x l IH]; intros f Hinj; [constructor|].
  rewrite imap_cons. apply NoDup_cons. split.
  - intros (i & y & Heq & _)%elem_of_lookup_imap.
    apply Hinj in Heq. discriminate.
  - apply IH. intros j k a b Heq. apply Hinj in Heq. by injection Heq.
Qed.

Lemma send_ids_distinct i (batch : list RedriveInputMessage) :
  NoDup (Aws.se_Id <$>
           imap (fun idx m => Aws.mkSendEntry (entry_id (i + idx) m) (body m)
                                (messageAttributes m)) batch).
Proof.
  rewrite fmap_imap. apply NoDup_imap_index. simpl.
  intros j k a b [Heq _]%EntryIdFacts.entry_id_inj. lia.
Qed.

Lemma delete_ids_distinct i (batch : list RedriveInputMessage) :
  NoDup (Aws.de_Id <$>
           imap (fun idx m => Aws.mkDeleteEntry (entry_id (i + idx) m)
                                (receiptHandle m)) batch).
Proof.
  rewrite fmap_imap. apply NoDup_imap_index. simpl.
  intros j k a b [Heq _]%EntryIdFacts.entry_id_inj. lia.
Qed.

(** One more batch of ten. *)
Lemma ceil_div_step (n : nat) :
  (0 < n)%nat -> ((n + 9) / 10 = 1 + (n - 10 + 9) / 10)%nat.
Proof.
  intros Hn. destruct (Nat.le_gt_cases n 10) as [Hle|Hgt].
  - replace (n - 10 + 9)%nat with 9%nat by lia. change (9 / 10)%nat with 0%nat.
    symmetry. apply (Nat.div_unique _ _ _ (n - 1)); lia.
  - replace (n + 9)%nat with ((n - 10 + 9) + 1 * 10)%nat by lia.
    rewrite Nat.div_add by done. lia.
Qed.

Lemma filter_indexed_all {A} (keep : nat -> A -> bool) (l : list A) :
  forall idx, (forall k a, keep k a = true) -> filter_indexed keep idx l = l.
Proof.
  induction l as [|x l IH]; intros idx Hall; simpl; [done|].
  by rewrite Hall, IH.
Qed.

Section Facts.
Context {P : Type} `{Aws.AwsProvider P}.

(** The requests of one batch: a send, and then perhaps a delete. *)
Lemma redrive_batch_requests client dlqUrl targetUrl messages deleteAfterSend i acc
    (st st' : AppState P) r :
  (i < length messages)%nat ->
  redrive_batch client dlqUrl targetUrl messages deleteAfterSend i acc st = (r, st') ->
  exists new,
    calls st' = calls st ++ new
    /\ Forall (redrive_request_ok dlqUrl targetUrl deleteAfterSend) new
    /\ length (filter is_send new) = 1%nat.
Proof.
  intros Hi. unfold redrive_batch, bind at 1. rewrite ReceiveFacts.send_eq.
  set (batch := slice messages i (i + 10)).
  assert (1 <= length batch <= 10)%nat as Hbatch.
  { subst batch. rewrite slice_length. lia. }
  set (sendEntries := imap _ batch).
  set (sendCall := Aws.SendMessageBatchCommand client targetUrl sendEntries).
  assert (redrive_request_ok dlqUrl targetUrl deleteAfterSend sendCall) as Hsend.
  { subst sendCall sendEntries. simpl. rewrite length_imap.
    split_and!; [done | lia | lia | apply send_ids_distinct]. }
  destruct (Aws.sendMessageBatch _ _ _ (aws st)) as [[failed|e] p1]; simpl.
  2:{ intros [= <- <-]. exists [sendCall]. simpl.
      split_and!; [done | by constructor | done]. }
  set (successfulBatch := filter_indexed _ 0%nat batch).
  assert (length successfulBatch <= 10)%nat as Hsucc.
  { subst successfulBatch. etrans; [apply filter_indexed_length | lia]. }
  destruct deleteAfterSend; simpl.
  - destruct (Nat.ltb_spec 0 (length successfulBatch)) as [Hpos|Hzero].
    + unfold bind. rewrite ReceiveFacts.send_eq.
      set (deleteEntries := imap _ successfulBatch).
      set (deleteCall := Aws.DeleteMessageBatchCommand client dlqUrl deleteEntries).
      assert (redrive_request_ok dlqUrl targetUrl true deleteCall) as Hdelete.
      { subst deleteCall deleteEntries. simpl. rewrite length_imap.
        split_and!; [done | done | lia | lia | apply delete_ids_distinct]. }
      destruct (Aws.deleteMessageBatch _ _ _ _) as [[dfailed|e] p2]; simpl;
        intros [= <- <-]; exists [sendCall; deleteCall]; simpl;
        rewrite <- app_assoc;
        (split_and!;
         [done | constructor; [exact Hsend | constructor; [exact Hdelete | constructor]]
         | done]).
    + intros [= <- <-]. exists [sendCall]. simpl.
      split_and!; [done | by constructor | done].
  - intros [= <- <-]. exists [sendCall]. simpl.
    split_and!; [done | by constructor | done].
Qed.

(** The requests of the loop from index [i]; a run that returns a summary
    has sent one send request per batch of ten. *)
Lemma redrive_loop_requests client dlqUrl targetUrl messages deleteAfterSend :
  forall fuel i acc (st st' : AppState P) r,
    redrive_loop fuel client dlqUrl targetUrl messages deleteAfterSend i acc st
    = Some (r, st') ->
    exists new,
      calls st' = calls st ++ new
      /\ Forall (redrive_request_ok dlqUrl targetUrl deleteAfterSend) new
      /\ (forall summary, r = Return summary ->
            length (filter is_send new) = ((length messages - i + 9) / 10)%nat).
Proof.
  induction fuel as [|fuel IH]; intros i acc st st' r; simpl.
  - destruct (Nat.ltb_spec i (length messages)); [done|].
    intros [= <- <-]. exists []. rewrite app_nil_r.
    split_and!; [done | constructor |]. intros _ _. simpl.
    replace (length messages - i)%nat with 0%nat by lia. done.
  - destruct (Nat.ltb_spec i (length messages)) as [Hlt|Hge].
    2:{ intros [= <- <-]. exists []. rewrite app_nil_r.
        split_and!; [done | constructor |]. intros _ _. simpl.
        replace (length messages - i)%nat with 0%nat by lia. done. }
    destruct (redrive_batch _ _ _ _ _ i acc st) as [[acc'|e] st1] eqn:Hbatch.
    + apply (redrive_batch_requests _ _ _ _ _ _ _ _ _ _ Hlt) in Hbatch
        as (new1 & Hcalls1 & Hok1 & Hone).
      intros Hloop. apply IH in Hloop as (new2 & Hcalls2 & Hok2 & Hcount).
      exists (new1 ++ new2). split_and!.
      * by rewrite Hcalls2, Hcalls1, app_assoc.
      * by apply Forall_app.
      * intros summary Hr. rewrite filter_app, length_app, Hone, (Hcount _ Hr).
        change (Nat.divmod (length messages - i + 9) 9 0 9).1
          with ((length messages - i + 9) / 10)%nat.
        rewrite (ceil_div_step (length messages - i)) by lia.
        by replace (length messages - i - 10)%nat
          with (length messages - (i + 10))%nat by lia.
    + apply (redrive_batch_requests _ _ _ _ _ _ _ _ _ _ Hlt) in Hbatch
        as (new1 & Hcalls1 & Hok1 & _).
      intros [= <- <-]. exists new1. split_and!; [done | done | by intros ? [=]].
Qed.

Lemma createSqsClient_requests now envId region sessionId (st st' : AppState P) r :
  createSqsClient now envId region sessionId st = (r, st') ->
  exists pre, calls st' = calls st ++ pre /\ Forall is_exchange pre
              /\ filter is_send pre = [].
Proof.
  unfold createSqsClient, EnvConfig.getEnvironment, EnvConfig.getDynamicEnvironments,
    getSsoSession, bind, ret, throw; simpl.
  assert (Hnone : forall (s : AppState P) (o : Outcome Aws.SQSClient),
             calls s = calls st -> (o, s) = (r, st') ->
             exists pre, calls st' = calls st ++ pre /\ Forall is_exchange pre
                         /\ filter is_send pre = []).
  { intros s o Hs [= <- <-]. exists []. rewrite app_nil_r. by split_and!. }
  destruct (List.find _ _) as [env|]; [|by apply Hnone].
  destruct (SessionStore.getSsoSession now sessionId (store st)) as [[session|] s'];
    simpl; [|by apply Hnone].
  destruct (negb _ || negb _); [by apply Hnone|].
  rewrite ReceiveFacts.send_eq.
  set (call := Aws.GetRoleCredentialsCommand _ _ _ _).
  assert (Hone : forall (s : AppState P) (o : Outcome Aws.SQSClient),
             calls s = calls st ++ [call] -> (o, s) = (r, st') ->
             exists pre, calls st' = calls st ++ pre /\ Forall is_exchange pre
                         /\ filter is_send pre = []).
  { intros s o Hs [= <- <-]. exists [call].
    split_and!; [done | constructor; [exact I | constructor] | done]. }
  destruct (Aws.getRoleCredentials _ _ _ _ _) as [[[rc|]|e] p']; simpl;
    try (by apply Hone).
  destruct (_ && _); by apply Hone.
Qed.

Lemma redrive_returns now envId region sessionId dlqUrl targetUrl messages
    deleteAfterSend (st : AppState P) :
  exists r st',
    redriveMessages now envId region sessionId dlqUrl targetUrl messages
      deleteAfterSend st = Some (r, st').
Proof.
  unfold redriveMessages.
  destruct (createSqsClient now envId region sessionId st) as [[client|e] st0];
    [|by eexists _, _].
  destruct (redrive_loop_spec client dlqUrl targetUrl messages deleteAfterSend
              (length messages) 0%nat (mkSummary 0 0 0 0) st0)
    as (r & st' & Hloop & _); [lia|]. by exists r, st'.
Qed.

(** X23.  Every batch request of a redrive call is within the limits of the
    queue service: after the credential exchange, the call sends only send
    batches to the target queue and, when [deleteAfterSend] is set, delete
    batches on the source queue; each has between 1 and 10 entries, and the
    entry ids within one request are pairwise different.  With
    [deleteAfterSend] false no delete request is sent. *)
Theorem redrive_requests_within_limits
    (now : Z) (envId region sessionId dlqUrl targetUrl : string)
    (messages : list RedriveInputMessage) (deleteAfterSend : bool)
    (st : AppState P) :
  exists r st' pre new,
    redriveMessages now envId region sessionId dlqUrl targetUrl messages
      deleteAfterSend st = Some (r, st')
    /\ calls st' = calls st ++ pre ++ new
    /\ Forall is_exchange pre
    /\ Forall (redrive_request_ok dlqUrl targetUrl deleteAfterSend) new.
Proof.
  destruct (redrive_returns now envId region sessionId dlqUrl targetUrl
              messages deleteAfterSend st) as (r & st' & Hrun).
  exists r, st'. revert Hrun. unfold redriveMessages.
  destruct (createSqsClient now envId region sessionId st) as [[client|e] st0] eqn:Hc;
    apply createSqsClient_requests in Hc as (pre & Hpre & Hex & _).
  - intros Hloop. pose proof Hloop as Hreq.
    apply redrive_loop_requests in Hreq as (new & Hnew & Hok & _).
    exists pre, new. split_and!; [done | | done | done].
    by rewrite Hnew, Hpre, app_assoc.
  - intros [= <- <-]. exists pre, []. rewrite app_nil_r.
    split_and!; [done | done | done | constructor].
Qed.

(** X24.  A redrive call that returns a summary has sent exactly one send
    request per started batch of ten messages, [ceil(n / 10)] for [n]
    messages: none for an empty list. *)
Theorem redrive_send_request_count
    (now : Z) (envId region sessionId dlqUrl targetUrl : string)
    (messages : list RedriveInputMessage) (deleteAfterSend : bool)
    (st st' : AppState P) (summary : RedriveResultSummary)
    (Hrun : redriveMessages now envId region sessionId dlqUrl targetUrl messages
              deleteAfterSend st = Some (Return summary, st')) :
  exists new,
    calls st' = calls st ++ new
    /\ length (filter is_send new) = ((length messages + 9) / 10)%nat.
Proof.
  revert Hrun. unfold redriveMessages.
  destruct (createSqsClient now envId region sessionId st) as [[client|e] st0] eqn:Hc;
    [|done].
  apply createSqsClient_requests in Hc as (pre & Hpre & _ & Hnosend).
  intros Hloop. apply redrive_loop_requests in Hloop as (new & Hnew & _ & Hcount).
  exists (pre ++ new). split; [by rewrite Hnew, Hpre, app_assoc|].
  rewrite filter_app, length_app, Hnosend, (Hcount summary eq_refl). simpl.
  by rewrite Nat.sub_0_r.
Qed.

(** The counters of one batch when nothing fails. *)
Lemma redrive_batch_no_failures client dlqUrl targetUrl messages deleteAfterSend i acc
    (st st' : AppState P) acc' :
  no_failures ->
  redrive_batch client dlqUrl targetUrl messages deleteAfterSend i acc st
  = (Return acc', st') ->
  sent acc' = sent acc + Z.of_nat (length (slice messages i (i + 10)))
  /\ sendFailed acc' = sendFailed acc
  /\ deleteFailed acc' = deleteFailed acc
  /\ deleted acc'
     = deleted acc + (if deleteAfterSend
                      then Z.of_nat (length (slice messages i (i + 10))) else 0).
Proof.
  intros [Hsend Hdelete]. unfold redrive_batch, bind at 1.
  rewrite ReceiveFacts.send_eq.
  set (batch := slice messages i (i + 10)).
  destruct (Aws.sendMessageBatch _ _ _ (aws st)) as [[failed|e] p1] eqn:Hs; simpl;
    [|done].
  rewrite (Hsend _ _ _ _ _ _ Hs). simpl.
  rewrite filter_indexed_all
    by (intros k a; apply negb_true_iff, bool_decide_eq_false_2;
        apply not_elem_of_empty).
  destruct deleteAfterSend; simpl.
  - destruct (Nat.ltb_spec 0 (length batch)) as [Hpos|Hzero].
    + unfold bind. rewrite ReceiveFacts.send_eq.
      destruct (Aws.deleteMessageBatch _ _ _ _) as [[dfailed|e] p2] eqn:Hd; simpl;
        [|done].
      rewrite (Hdelete _ _ _ _ _ _ Hd). simpl.
      intros [= <- <-]. simpl. lia.
    + intros [= <- <-]. simpl. lia.
  - intros [= <- <-]. simpl. lia.
Qed.

Lemma redrive_loop_no_failures client dlqUrl targetUrl messages deleteAfterSend :
  no_failures ->
  forall fuel i acc (st st' : AppState P) summary,
    redrive_loop fuel client dlqUrl targetUrl messages deleteAfterSend i acc st
    = Some (Return summary, st') ->
    sent summary = sent acc + Z.of_nat (length messages - i)
    /\ sendFailed summary = sendFailed acc
    /\ deleteFailed summary = deleteFailed acc
    /\ deleted summary
       = deleted acc + (if deleteAfterSend
                        then Z.of_nat (length messages - i) else 0).
Proof.
  intros Hnf. induction fuel as [|fuel IH]; intros i acc st st' summary; simpl.
  - destruct (Nat.ltb_spec i (length messages)); [done|].
    intros [= <- <-]. replace (length messages - i)%nat with 0%nat by lia.
    destruct deleteAfterSend; simpl; lia.
  - destruct (Nat.ltb_spec i (length messages)) as [Hlt|Hge].
    2:{ intros [= <- <-]. replace (length messages - i)%nat with 0%nat by lia.
        destruct deleteAfterSend; simpl; lia. }
    destruct (redrive_batch _ _ _ _ _ i acc st) as [[acc'|e] st1] eqn:Hbatch; [|done].
    apply (redrive_batch_no_failures _ _ _ _ _ _ _ _ _ _ Hnf) in Hbatch.
    rewrite slice_length in Hbatch.
    intros Hloop. apply IH in Hloop.
    destruct deleteAfterSend; lia.
Qed.

(** X25.  When the provider reports no failed entry, a returned summary
    counts every message as sent and none as failed; with [deleteAfterSend]
    every message is counted as deleted as well. *)
Theorem redrive_without_failures
    (now : Z) (envId region sessionId dlqUrl targetUrl : string)
    (messages : list RedriveInputMessage) (deleteAfterSend : bool)
    (st st' : AppState P) (summary : RedriveResultSummary)
    (Hreliable : no_failures)
    (Hrun : redriveMessages now envId region sessionId dlqUrl targetUrl messages
              deleteAfterSend st = Some (Return summary, st')) :
  sent summary = Z.of_nat (length messages)
  /\ sendFailed summary = 0
  /\ deleteFailed summary = 0
  /\ deleted summary = (if deleteAfterSend then Z.of_nat (length messages) else 0).
Proof.
  revert Hrun. unfold redriveMessages.
  destruct (createSqsClient now envId region sessionId st) as [[client|e] st0];
    [|done].
  intros Hloop.
  apply (redrive_loop_no_failures _ _ _ _ _ Hreliable) in Hloop. simpl in Hloop.
  rewrite Nat.sub_0_r in Hloop. destruct deleteAfterSend; lia.
Qed.

End Facts.
End RedriveMore.

(** ** Preview (src/aws/sqsService.ts, [previewDlqMessages]) *)

Module PreviewFacts.
Import SqsService.

Section Facts.
Context {P : Type} `{Aws.AwsProvider P}.


End Facts.
End PreviewFacts.

(** ** The properties of Part III on concrete inputs *)

Module MoreExamples.
Import SsoDiscovery.

Definition live_session : SessionStore.ConnectedSsoSession :=
  SessionStore.mkSession "my-sso" "eu-west-1" "token-abc" (Some 3600000).

Definition dev : AccountInfo := mkAccountInfo (Some "111111111111") (Some "Dev").
Definition no_id : AccountInfo := mkAccountInfo None (Some "NoId").
Definition prod : AccountInfo := mkAccountInfo (Some "222222222222") None.

(** Two pages of accounts; the roles of the first account come in two pages,
    one of them with a role without name. *)
Definition directory : Paged :=
  mkPaged [[dev; no_id]; [prod]]
    (fun aid =>
       if String.eqb aid "111111111111"
       then [[mkRoleInfo (Some "AdminRole")]; [mkRoleInfo None; mkRoleInfo (Some "ReadOnly")]]
       else if String.eqb aid "222222222222" then [[mkRoleInfo (Some "ViewOnly")]]
       else []).

Definition dev_admin : EnvironmentConfig :=
  mkEnvironmentConfig "111111111111-AdminRole" "Dev (AdminRole)" ["eu-west-1"]
    (Some "111111111111") (Some "AdminRole").
Definition dev_readonly : EnvironmentConfig :=
  mkEnvironmentConfig "111111111111-ReadOnly" "Dev (ReadOnly)" ["eu-west-1"]
    (Some "111111111111") (Some "ReadOnly").
Definition prod_viewonly : EnvironmentConfig :=
  mkEnvironmentConfig "222222222222-ViewOnly" "222222222222 (ViewOnly)" ["eu-west-1"]
    (Some "222222222222") (Some "ViewOnly").

Definition discovered : list EnvironmentConfig :=
  [dev_admin; dev_readonly; prod_viewonly].

Lemma directory_fits : fits 2 directory.
Proof.
  split; [lia|]. split; [simpl; lia|].
  intros account aid _ _. simpl. repeat case_match; simpl; lia.
Qed.

(** A process with a live session and the discovered environments
    registered, talking to the provider on which nothing fails. *)
Definition connected : AppState unit :=
  mkAppState {["sess-1" := live_session]} {["sess-1" := discovered]} None tt [].

Definition inputs (n : nat) : list SqsService.RedriveInputMessage :=
  (fun k => SqsService.mkRedriveInputMessage ("m" +:+ pretty k) ("rh" +:+ pretty k)
              "{}" None) <$> seq 0 n.

Lemma reliable_no_failures : no_failures (P := unit).
Proof. split; intros client url entries p p' failed [= <- <-]; done. Qed.

(** A registration that fails, then one that succeeds. *)
Definition flaky_registration : AppState MockAws.Script :=
  MockAws.initial
    (MockAws.mkScript [Throw (new_Error "Network error");
                       FlowExamples.registration "cid-123" "csecret-456"]
       [] [] [] [] [] []).

End MoreExamples.

(** X1 for a session that expires at 1000, read before and after. *)
Lemma set_get_roundtrip_witness :
  let session := SessionStore.mkSession "my-sso" "eu-west-1" "t" (Some 1000) in
  SessionStore.getSsoSession 999 "s" (SessionStore.setSsoSession "s" session ∅)
  = (Some session, SessionStore.setSsoSession "s" session ∅)
  /\ SessionStore.getSsoSession 1000 "s" (SessionStore.setSsoSession "s" session ∅)
     = (None, delete "s" ∅).
Proof.
  intros session.
  destruct (SessionStoreMore.set_get_roundtrip ∅ "s" session 999) as [Hlive _].
  destruct (SessionStoreMore.set_get_roundtrip ∅ "s" session 1000) as [_ Hdead].
  split.
  - apply Hlive. intros (t & [= <-] & Hle). lia.
  - apply Hdead. exists 1000. split; [reflexivity | lia].
Defined.

(** X3 for the discovered environments. *)
Lemma register_then_lookup_witness :
  let st1 := snd (EnvConfig.registerDynamicEnvironments "sess-1"
                    MoreExamples.discovered (MockAws.initial tt)) in
  fst (EnvConfig.getEnvironment "nope" "sess-1" st1)
  = Throw (new_Error ("Unknown environment id: " +:+ "nope")).
Proof.
  intros st1.
  destruct (EnvConfigFacts.register_then_lookup (MockAws.initial tt) "sess-1" "nope"
              MoreExamples.discovered) as (_ & _ & Hthrow).
  apply Hthrow. repeat constructor; discriminate.
Defined.

(** X5 for an unknown environment id. *)
Lemma createSqsClient_rejects_without_request_witness :
  SqsService.createSqsClient 1000 "nope" "eu-west-1" "sess-1" MoreExamples.connected
  = (Throw (new_Error ("Unknown environment id: " +:+ "nope")), MoreExamples.connected).
Proof.
  destruct (CreateClientFacts.createSqsClient_rejects_without_request
              1000 "nope" "eu-west-1" "sess-1" MoreExamples.connected) as (Hunknown & _).
  apply Hunknown. reflexivity.
Defined.


(** X7 for the paged directory. *)
Lemma discovered_environments_well_formed_witness :
  Forall (SsoDiscovery.well_formed "eu-west-1") MoreExamples.discovered.
Proof.
  apply (SsoDiscoveryFacts.discovered_environments_well_formed 2
           MoreExamples.live_session MoreExamples.directory MoreExamples.directory
           MoreExamples.discovered).
  vm_compute. reflexivity.
Defined.

(** X8 for the directory that always continues, at a thousand pages. *)
Lemma discovery_follows_tokens_without_limit_witness :
  SsoDiscovery.discoverSsoEnvironments 1000 MoreExamples.live_session tt = None.
Proof.
  apply (SsoDiscoveryFacts.discovery_follows_tokens_without_limit
           (P := unit) MoreExamples.live_session).
  intros region token nextToken p. eexists _, _. split; reflexivity.
Defined.

(** X9 for the paged directory: three environments, in listing order. *)
Lemma discovery_drains_all_pages_witness :
  SsoDiscovery.discoverSsoEnvironments 2 MoreExamples.live_session MoreExamples.directory
  = Some (Return MoreExamples.discovered, MoreExamples.directory).
Proof.
  rewrite (SsoDiscoveryFacts.discovery_drains_all_pages 2 MoreExamples.live_session
             MoreExamples.directory MoreExamples.directory_fits).
  reflexivity.
Defined.

(** X10 for an environment of the paged directory. *)
Lemma discovered_environment_reaches_exchange_witness :
  exists r st' account role,
    SqsService.createSqsClient 1000 (env_id MoreExamples.dev_readonly) "eu-west-1"
      "sess-1" MoreExamples.connected = (r, st')
    /\ env_id MoreExamples.dev_readonly = account +:+ "-" +:+ role
    /\ calls st' = calls MoreExamples.connected
         ++ [Aws.GetRoleCredentialsCommand "eu-west-1" "token-abc" account role].
Proof.
  apply (DiscoveryFlowFacts.discovered_environment_reaches_exchange
           2 MoreExamples.live_session MoreExamples.directory MoreExamples.directory
           MoreExamples.discovered MoreExamples.dev_readonly MoreExamples.connected
           1000 "eu-west-1" "sess-1" MoreExamples.live_session).
  - vm_compute. reflexivity.
  - apply list_elem_of_further, list_elem_of_here.
  - reflexivity.
  - vm_compute. reflexivity.
Defined.

(** X11 for a login that starts. *)
Lemma startLogin_outcomes_witness :
  let run := SsoLogin.startLogin [FlowExamples.PROFILE] 1000 "dev"
               MoreExamples.connected in
  store (snd run) = store MoreExamples.connected
  /\ dynamicEnvs (snd run) = dynamicEnvs MoreExamples.connected
  /\ (List.find (fun p => String.eqb (SsoLogin.name p) "dev") [FlowExamples.PROFILE]
      = None ->
      fst run = Throw (new_Error ("Unknown SSO profile: " +:+ "dev"))
      /\ snd run = MoreExamples.connected)
  /\ (forall res, fst run = Return res ->
        SsoLogin.deviceCode res <> EmptyString
        /\ SsoLogin.verificationUri res <> EmptyString
        /\ SsoLogin.userCode res <> EmptyString /\ SsoLogin.intervalSeconds res <> 0
        /\ (exists expiresIn,
              expiresIn <> 0 /\ SsoLogin.expiresAt res = 1000 + expiresIn * 1000)
        /\ is_Some (registeredClient (snd run))).
Proof.
  intros run.
  apply (SsoLoginMore.startLogin_outcomes [FlowExamples.PROFILE] 1000 "dev"
           MoreExamples.connected (snd run) (fst run)).
  subst run. apply surjective_pairing.
Defined.

(** X12 for a login that completes at time 1000 with a token valid for
    28800 seconds. *)
Lemma pollForLogin_success_stores_session_witness :
  let session := SsoLoginMore.login_session FlowExamples.PROFILE 1000 "token" 28800 in
  exists st',
    SsoLogin.pollForLogin [FlowExamples.PROFILE] 1000 "dev" "device-code" "sess-2"
      MoreExamples.connected
    = (Return (SsoLogin.mkPollLoginResult true None), st')
    /\ store st' = <["sess-2" := session]> (store MoreExamples.connected)
    /\ forall t, t < 1000 + 28800 * 1000 ->
         SessionStore.getSsoSession t "sess-2" (store st') = (Some session, store st').
Proof.
  intros session.
  apply (SsoLoginMore.pollForLogin_success_stores_session
           [FlowExamples.PROFILE] 1000 "dev" "device-code" "sess-2"
           MoreExamples.connected
           (snd (SsoLogin.getRegisteredClient "eu-west-1" MoreExamples.connected))
           FlowExamples.PROFILE (mkRegisteredClient "cid" "secret")
           (Aws.mkCreateTokenResponse (Some "token") (Some 28800)) tt "token" 28800).
  - reflexivity.
  - vm_compute. reflexivity.
  - reflexivity.
  - reflexivity.
  - discriminate.
  - reflexivity.
  - discriminate.
Defined.

(** X13 for the pending scenario: the stored session is still there. *)
Lemma pollForLogin_writes_on_success_only_witness :
  let run := SsoLogin.pollForLogin [FlowExamples.PROFILE] 1000 "dev" "device-code"
               "sess-1" FlowExamples.login_state in
  dynamicEnvs (snd run) = dynamicEnvs FlowExamples.login_state
  /\ (forall other, other <> "sess-1" ->
        store (snd run) !! other = store FlowExamples.login_state !! other)
  /\ (fst run <> Return (SsoLogin.mkPollLoginResult true None) ->
      store (snd run) = store FlowExamples.login_state)
  /\ (forall res, fst run = Return res ->
        res = SsoLogin.mkPollLoginResult true None
        \/ res = SsoLogin.mkPollLoginResult false (Some true)).
Proof.
  intros run.
  apply (SsoLoginMore.pollForLogin_writes_on_success_only
           [FlowExamples.PROFILE] 1000 "dev" "device-code" "sess-1"
           FlowExamples.login_state (snd run) (fst run)).
  subst run. apply surjective_pairing.
Defined.

(** X14 for a registration that fails once. *)
Lemma failed_registration_is_retried_witness :
  let st1 := snd (SsoLogin.getRegisteredClient "eu-west-1"
                    MoreExamples.flaky_registration) in
  let st2 := snd (SsoLogin.getRegisteredClient "eu-west-1" st1) in
  registeredClient st1 = None
  /\ calls st1 = calls MoreExamples.flaky_registration
       ++ [Aws.RegisterClientCommand "eu-west-1" "sqs-dlq-redrive-webapp" "public"]
  /\ calls st2 = calls st1
       ++ [Aws.RegisterClientCommand "eu-west-1" "sqs-dlq-redrive-webapp" "public"].
Proof.
  intros st1 st2.
  apply (SsoLoginMore.failed_registration_is_retried "eu-west-1" "eu-west-1"
           MoreExamples.flaky_registration st1 st2 (new_Error "Network error")
           (fst (SsoLogin.getRegisteredClient "eu-west-1" st1))).
  - reflexivity.
  - vm_compute. reflexivity.
  - vm_compute. reflexivity.
Defined.

(** X15 on the nested body of the specification's scenario. *)
Lemma getByPath_compose_witness :
  let obj := MiniJs.JObj [("a", MiniJs.JObj [("b", MiniJs.JNum 1)])] in
  JsonFilter.getByPath obj ("a" +:+ "." +:+ "b")
  = JsonFilter.getByPath (JsonFilter.getByPath obj "a") "b"
  /\ (is_nullish (JsonFilter.getByPath obj "a")
      || negb (typeof_object (JsonFilter.getByPath obj "a")) = true ->
      JsonFilter.getByPath obj ("a" +:+ "." +:+ "b") = undefined).
Proof.
  intros obj.
  apply (JsonFilterMore.getByPath_compose obj "a" "b");
    [reflexivity | discriminate | discriminate].
Defined.

(** X16 for a message without the attribute. *)
Lemma filter_absent_attribute_witness :
  let messages := [MiniJsExamples.m1; MiniJsExamples.m2] in
  let parsed := MiniJs.JObj [("status", MiniJs.JStr "ok")] in
  (MiniJsExamples.m2 ∉ JsonFilter.raws (V := MiniJs.JValue) [])
  /\ JsonFilter.mkFiltered MiniJsExamples.m2 parsed undefined None
     ∈ [JsonFilter.mkFiltered MiniJsExamples.m1
          (MiniJs.JObj [("status", MiniJs.JStr "error")]) undefined None;
        JsonFilter.mkFiltered MiniJsExamples.m2 parsed undefined None].
Proof.
  intros messages parsed.
  apply (JsonFilterMore.filter_absent_attribute "missing" "x" messages
           MiniJsExamples.m2 parsed).
  - apply list_elem_of_further, list_elem_of_here.
  - exists MiniJsExamples.body_ok.
    split_and!; try (vm_compute; reflexivity). vm_compute. discriminate.
  - vm_compute. reflexivity.
  - vm_compute. reflexivity.
Defined.

(** X17 for the matching entry of the five messages. *)
Lemma filter_entries_sound_witness :
  JsonFilter.raw MiniJsExamples.entry1
  ∈ [MiniJsExamples.m1; MiniJsExamples.m2; MiniJsExamples.m3;
     MiniJsExamples.m4; MiniJsExamples.m5]
  /\ (error_entry MiniJsExamples.entry1
      \/ (false = true /\ absent_entry "status" MiniJsExamples.entry1)
      \/ exists str, value_entry "status" str MiniJsExamples.entry1 /\ str = "error").
Proof.
  apply (JsonFilterMore.filter_entries_sound "status" "error"
           [MiniJsExamples.m1; MiniJsExamples.m2; MiniJsExamples.m3;
            MiniJsExamples.m4; MiniJsExamples.m5] false
           [MiniJsExamples.entry1; MiniJsExamples.entry3] MiniJsExamples.entry1).
  - vm_compute. reflexivity.
  - apply list_elem_of_here.
Defined.

(** X18 for the five messages. *)
Lemma filter_preserves_order_witness :
  [MiniJsExamples.m1; MiniJsExamples.m3]
    `sublist_of` [MiniJsExamples.m1; MiniJsExamples.m2; MiniJsExamples.m3;
                  MiniJsExamples.m4; MiniJsExamples.m5]
  /\ (2 <= 5)%nat.
Proof.
  apply (JsonFilterMore.filter_preserves_order "status" "error"
           [MiniJsExamples.m1; MiniJsExamples.m2; MiniJsExamples.m3;
            MiniJsExamples.m4; MiniJsExamples.m5] false
           [MiniJsExamples.entry1; MiniJsExamples.entry3]).
  vm_compute. reflexivity.
Defined.

(** X19 for two parts of the five messages. *)
Lemma filter_concatenation_witness :
  JsonFilter.filterByAttributePath
    ([MiniJsExamples.m1; MiniJsExamples.m2] ++ [MiniJsExamples.m3]) "status" "error" false
  = Return ([MiniJsExamples.entry1] ++ [MiniJsExamples.entry3]).
Proof.
  destruct (JsonFilterMore.filter_concatenation "status" "error"
              [MiniJsExamples.m1; MiniJsExamples.m2] [MiniJsExamples.m3] false)
    as (Hboth & _).
  apply Hboth; vm_compute; reflexivity.
Defined.


(** X22 for the redelivery scenario: the second answer repeats the first. *)
Lemma receive_loop_stops_on_redelivery_witness :
  let st : AppState MockAws.Script :=
    MockAws.initial (ReceiveExamples.receiving [Return (Some [ReceiveExamples.msg "a"])]) in
  exists st',
    SqsService.receive_loop 1 ReceiveExamples.client ReceiveExamples.queue
      (ReceiveExamples.options 3) 3 {["a"]} [ReceiveExamples.msg "a"] st
    = Some (Return [ReceiveExamples.msg "a"], st')
    /\ length (calls st') = S (length (calls st))
    /\ aws st' = MockAws.empty_script.
Proof.
  intros st.
  apply (ReceiveMore.receive_loop_stops_on_redelivery 0 ReceiveExamples.client
           ReceiveExamples.queue (ReceiveExamples.options 3) 3 {["a"]}
           [ReceiveExamples.msg "a"] [ReceiveExamples.msg "a"] st MockAws.empty_script).
  - simpl. lia.
  - reflexivity.
  - apply Forall_singleton. simpl. by apply elem_of_singleton.
Defined.

(** X24 for twelve messages: two send requests. *)
Lemma redrive_send_request_count_witness :
  let run := SqsService.redriveMessages 1000 "111111111111-AdminRole" "eu-west-1"
               "sess-1" FlowExamples.dlq FlowExamples.target
               (MoreExamples.inputs 12) false MoreExamples.connected in
  exists st' new,
    run = Some (Return (SqsService.mkSummary 12 0 0 0), st')
    /\ calls st' = calls MoreExamples.connected ++ new
    /\ length (filter is_send new) = 2%nat.
Proof.
  intros run.
  assert (Hrun : exists st',
             run = Some (Return (SqsService.mkSummary 12 0 0 0), st')).
  { eexists. vm_compute. reflexivity. }
  destruct Hrun as [st' Hrun]. exists st'.
  destruct (RedriveMore.redrive_send_request_count 1000 "111111111111-AdminRole"
              "eu-west-1" "sess-1" FlowExamples.dlq FlowExamples.target
              (MoreExamples.inputs 12) false MoreExamples.connected st'
              (SqsService.mkSummary 12 0 0 0) Hrun) as (new & Hcalls & Hcount).
  exists new. split_and!; [exact Hrun | exact Hcalls | exact Hcount].
Defined.

(** X25 for twelve messages, deleted after send. *)
Lemma redrive_without_failures_witness :
  let run := SqsService.redriveMessages 1000 "111111111111-AdminRole" "eu-west-1"
               "sess-1" FlowExamples.dlq FlowExamples.target
               (MoreExamples.inputs 12) true MoreExamples.connected in
  exists summary st',
    run = Some (Return summary, st')
    /\ SqsService.sent summary = 12 /\ SqsService.sendFailed summary = 0
    /\ SqsService.deleteFailed summary = 0 /\ SqsService.deleted summary = 12.
Proof.
  intros run.
  assert (Hrun : exists st',
             run = Some (Return (SqsService.mkSummary 12 0 12 0), st')).
  { eexists. vm_compute. reflexivity. }
  destruct Hrun as [st' Hrun]. exists (SqsService.mkSummary 12 0 12 0), st'.
  split; [exact Hrun|].
  apply (RedriveMore.redrive_without_failures 1000 "111111111111-AdminRole"
           "eu-west-1" "sess-1" FlowExamples.dlq FlowExamples.target
           (MoreExamples.inputs 12) true MoreExamples.connected st'
           (SqsService.mkSummary 12 0 12 0) MoreExamples.reliable_no_failures Hrun).
Defined.
